(** * Scoring, ranking and group balancing of the grader

    A shallow embedding of the algorithmic core of [grader/grader.py]
    (rating lookup, formula evaluation, score bounds, rank assignment,
    equivalent names, the ranked list and the files of recipients) and of
    [plugins/create_groups/create_groups.py] (balance energy, the
    random-swap optimizer and the trials of [main]), with the properties
    the specification states about them and further properties of the
    code.

    Conventions.  Python strings are [string]s (bytes), and the texts are
    taken to be ASCII: [strip] and [lower] act on the ASCII range.  A
    dictionary whose iteration order the code relies on (a configuration
    section) is an association list, the variables mapping handed to
    [eval] is a [gmap].  Python numbers are modelled by [pyfloat]: exact
    rationals for the finite values together with the three special values
    of a binary64 float, without its rounding.  The numpy arrays of the
    group optimizer hold real numbers, again without rounding. *)

From Stdlib Require Import ZArith QArith Qreduction Reals Lra Lia String Ascii List Sorted.
From stdpp Require Import base option list gmap strings.

Local Open Scope string_scope.

(** ** Outcomes of fallible code *)

Module Py.

(** [Ok] is a normal return, [Raise] an exception that leaves the function. *)
Inductive outcome (E A : Type) : Type :=
| Ok (a : A)
| Raise (e : E).
Arguments Ok {E A} a.
Arguments Raise {E A} e.

Definition bind {E A B} (m : outcome E A) (k : A -> outcome E B) : outcome E B :=
  match m with
  | Ok a => k a
  | Raise e => Raise e
  end.

Fixpoint mapM {E A B} (f : A -> outcome E B) (l : list A) : outcome E (list B) :=
  match l with
  | [] => Ok []
  | a :: l' => bind (f a) (fun b => bind (mapM f l') (fun bs => Ok (b :: bs)))
  end.

End Py.

Import Py.

Notation "'do' x <- m ; k" := (Py.bind m (fun x => k))
  (at level 10, x name, m at level 100, k at level 200,
   format "'[v' 'do'  x  <-  m ; '/' k ']'").

(** ** Python strings *)

Module PyStr.

(** [str.isspace] on the ASCII range: tab, line feed, vertical tab, form
    feed, carriage return, the four separators 0x1c..0x1f and the space. *)
Definition isspace (c : ascii) : bool :=
  let n := nat_of_ascii c in
  ((9 <=? n)%nat && (n <=? 13)%nat) || ((28 <=? n)%nat && (n <=? 32)%nat).

(** [s.partition(sep)[0]] for a one-character separator: the text before
    the first occurrence of [sep], the whole of [s] when there is none. *)
Fixpoint partition_head (sep : ascii) (s : string) : string :=
  match s with
  | EmptyString => EmptyString
  | String c s' => if Ascii.eqb c sep then EmptyString
                   else String c (partition_head sep s')
  end.

Fixpoint lstrip (s : string) : string :=
  match s with
  | EmptyString => EmptyString
  | String c s' => if isspace c then lstrip s' else s
  end.

Fixpoint rstrip (s : string) : string :=
  match s with
  | EmptyString => EmptyString
  | String c s' =>
      match rstrip s' with
      | EmptyString => if isspace c then EmptyString else String c EmptyString
      | r => String c r
      end
  end.

(** [s.strip()] *)
Definition strip (s : string) : string := rstrip (lstrip s).

(** [c in s] for a character [c] *)
Fixpoint has_char (c : ascii) (s : string) : bool :=
  match s with
  | EmptyString => false
  | String d s' => Ascii.eqb d c || has_char c s'
  end.

(** [str.lower] on the ASCII range *)
Definition lower_char (c : ascii) : ascii :=
  let n := nat_of_ascii c in
  if ((65 <=? n)%nat && (n <=? 90)%nat) then ascii_of_nat (n + 32) else c.

Fixpoint lower (s : string) : string :=
  match s with
  | EmptyString => EmptyString
  | String c s' => String (lower_char c) (lower s')
  end.

(** A string that does not start with white space. *)
Definition starts_clean (s : string) : Prop :=
  match s with
  | EmptyString => True
  | String c _ => isspace c = false
  end.

End PyStr.

(** ** grader.py *)

Module Grader.

Import PyStr.

(** *** Values *)

(** A Python number: a finite value, an infinity or the NaN. *)
Inductive pyfloat : Type :=
| Fin (q : Q)
| PInf
| NInf
| NaN.

(** [float_nan = float("nan")] *)
Definition float_nan : pyfloat := NaN.

(** The objects a formula sees: numbers (booleans are the numbers 0 and 1),
    strings, and the interpreter's built-in namespace. *)
Inductive value : Type :=
| VNum (x : pyfloat)
| VStr (s : string)
| VBuiltins.

(** What evaluating an expression can raise. *)
Inductive pyerr : Type :=
| NameError (x : string)
| TypeError
| ZeroDivisionError.

(** The exceptions of the module.  [ValueError] is the one [eval_formula]
    builds: it reports the cause and the variables it printed;
    [FormulaNotSet] is the [ValueError] of [_assign_rankings]. *)
Inductive exn : Type :=
| ValueError (cause : pyerr) (shown : gmap string value)
| Uncaught (e : pyerr)
| MissingRating (name key : string)
| AssertionError (minsc : value) (score : pyfloat) (maxsc : value)
| IndexError
| FormulaNotSet.

Abbreviation result := (outcome exn).

(** A section of the configuration file, in file order. *)
Abbreviation table A := (list (string * A)).

Fixpoint lookup_key {A} (key : string) (d : table A) : option A :=
  match d with
  | [] => None
  | (k, v) :: d' => if String.eqb k key then Some v else lookup_key key d'
  end.

(** [d.values()] *)
Definition values {A} (d : table A) : list A := map snd d.

(** *** get_rating *)

(** The key that [get_rating] looks up. *)
Definition rating_key (key : string) : string :=
  strip (partition_head "/" (partition_head "(" key)).

Definition get_rating (name : string) (dict : table pyfloat) (key : string)
    (fallback : option value) : result value :=
  let key := rating_key key in
  match lookup_key key dict with
  | Some v => Ok (VNum v)
  | None =>
      match fallback with
      | None => Raise (MissingRating name key)
      | Some fb => Ok fb
      end
  end.

(** *** Arithmetic and comparison of numbers *)

Definition isnan (x : pyfloat) : bool :=
  match x with NaN => true | _ => false end.

(** [x < y]: false as soon as one side is the NaN. *)
Definition f_lt (x y : pyfloat) : bool :=
  match x, y with
  | NaN, _ | _, NaN => false
  | Fin a, Fin b => negb (Qle_bool b a)
  | NInf, NInf => false
  | NInf, _ => true
  | _, NInf => false
  | PInf, _ => false
  | _, PInf => true
  end.

(** [x <= y] *)
Definition f_le (x y : pyfloat) : bool :=
  match x, y with
  | NaN, _ | _, NaN => false
  | Fin a, Fin b => Qle_bool a b
  | NInf, _ => true
  | _, PInf => true
  | _, NInf => false
  | PInf, _ => false
  end.

(** [x == y] *)
Definition f_eq (x y : pyfloat) : bool :=
  match x, y with
  | Fin a, Fin b => Qeq_bool a b
  | PInf, PInf | NInf, NInf => true
  | _, _ => false
  end.

Definition f_neg (x : pyfloat) : pyfloat :=
  match x with
  | Fin a => Fin (Qred (- a))
  | PInf => NInf
  | NInf => PInf
  | NaN => NaN
  end.

Definition f_add (x y : pyfloat) : pyfloat :=
  match x, y with
  | NaN, _ | _, NaN => NaN
  | Fin a, Fin b => Fin (Qred (a + b))
  | PInf, NInf | NInf, PInf => NaN
  | PInf, _ | _, PInf => PInf
  | NInf, _ | _, NInf => NInf
  end.

Definition f_sub (x y : pyfloat) : pyfloat := f_add x (f_neg y).

(** [x / n] for a positive count [n] *)
Definition f_div_count (x : pyfloat) (n : nat) : pyfloat :=
  match x with
  | Fin a => Fin (Qred (a / inject_Z (Z.of_nat n)))
  | _ => x
  end.

Definition of_bool (b : bool) : pyfloat := Fin (if b then 1 else 0).

(** [x == y] on objects never raises. *)
Definition v_eq (x y : value) : bool :=
  match x, y with
  | VNum a, VNum b => f_eq a b
  | VStr a, VStr b => String.eqb a b
  | VBuiltins, VBuiltins => true
  | _, _ => false
  end.

(** [x < y] and [x <= y] on objects: numbers with numbers, strings with
    strings, a [TypeError] otherwise. *)
Definition v_lt (x y : value) : result bool :=
  match x, y with
  | VNum a, VNum b => Ok (f_lt a b)
  | VStr a, VStr b => Ok (String.ltb a b)
  | _, _ => Raise (Uncaught TypeError)
  end.

Definition v_le (x y : value) : result bool :=
  match x, y with
  | VNum a, VNum b => Ok (f_le a b)
  | VStr a, VStr b => Ok (String.leb a b)
  | _, _ => Raise (Uncaught TypeError)
  end.

(** *** Formulas *)

(** A fragment of Python's expressions that is enough to write scoring
    formulas: literals, variables, [==], [+] and [-], and one call that
    writes: [EPop x d] is [globals().pop(x, d)]. *)
Inductive expr : Type :=
| ENum (q : Q)
| EStr (s : string)
| EVar (x : string)
| EEq (a b : expr)
| EAdd (a b : expr)
| ESub (a b : expr)
| EPop (x : string) (d : expr).

(** An evaluation runs in a namespace that it reads and can write: it
    gives its outcome together with the namespace as it leaves it, also
    when it raises. *)
Definition evaluation (A : Type) : Type :=
  gmap string value -> outcome pyerr A * gmap string value.

Definition unit_eval {A} (r : outcome pyerr A) : evaluation A :=
  fun globals => (r, globals).

Definition bind_eval {A B} (m : evaluation A) (k : A -> evaluation B)
    : evaluation B :=
  fun globals =>
    match m globals with
    | (Ok x, globals) => k x globals
    | (Raise e, globals) => (Raise e, globals)
    end.

(** The value of an expression in the namespace [globals], as Python
    computes it, operands from left to right: an unbound name is a
    [NameError], arithmetic between a string and a number a [TypeError];
    [globals().pop(x, d)] evaluates [d], then takes [x] out of the
    namespace and gives its value, or gives [d] when there is no [x]. *)
Fixpoint interp (e : expr) : evaluation value :=
  match e with
  | ENum q => unit_eval (Ok (VNum (Fin q)))
  | EStr s => unit_eval (Ok (VStr s))
  | EVar x =>
      fun globals =>
        match globals !! x with
        | Some v => (Ok v, globals)
        | None => (Raise (NameError x), globals)
        end
  | EEq a b =>
      bind_eval (interp a) (fun x =>
      bind_eval (interp b) (fun y =>
      unit_eval (Ok (VNum (of_bool (v_eq x y))))))
  | EAdd a b =>
      bind_eval (interp a) (fun x =>
      bind_eval (interp b) (fun y =>
      unit_eval
        match x, y with
        | VNum u, VNum v => Ok (VNum (f_add u v))
        | VStr u, VStr v => Ok (VStr (u ++ v))
        | _, _ => Raise TypeError
        end))
  | ESub a b =>
      bind_eval (interp a) (fun x =>
      bind_eval (interp b) (fun y =>
      unit_eval
        match x, y with
        | VNum u, VNum v => Ok (VNum (f_sub u v))
        | _, _ => Raise TypeError
        end))
  | EPop x d =>
      bind_eval (interp d) (fun v globals =>
        match globals !! x with
        | Some w => (Ok w, delete x globals)
        | None => (Ok v, globals)
        end)
  end.

Section Formula.

(** The formula is a text that Python's [eval] runs with the caller's
    dictionary as its global namespace.  [py_expr f globals] is the
    outcome of the expression [f] in the namespace [globals] together
    with that namespace as the expression leaves it: a formula can write
    to its globals. *)
Context {formula : Type}.
Variable py_expr : formula -> gmap string value
                   -> outcome pyerr value * gmap string value.

(** The namespace in which [eval] runs the expression: before that,
    [eval] puts the built-in namespace under ["__builtins__"] into a
    [globals] that has no such key. *)
Definition eval_globals (globals : gmap string value) : gmap string value :=
  match globals !! "__builtins__" with
  | Some _ => globals
  | None => <["__builtins__" := VBuiltins]> globals
  end.

(** [eval(formula, globals, {})]: the caller's dictionary is the one that
    [eval] and the expression update. *)
Definition py_eval (f : formula) (globals : gmap string value)
    : outcome pyerr value * gmap string value :=
  py_expr f (eval_globals globals).

(** [eval_formula] returns its result together with the dictionary
    [vars] as the call leaves it. *)
Definition eval_formula (f : formula) (vars : gmap string value)
    : result value * gmap string value :=
  match py_eval f vars with
  | (Ok v, vars) => (Ok v, vars)
  | (Raise ((NameError _ | TypeError) as e), vars) =>
      let vars := delete "__builtins__" vars in
      (Raise (ValueError e vars), vars)
  | (Raise e, vars) => (Raise (Uncaught e), vars)
  end.

(** *** Applicants *)

(** A row of the applications file, with the two attributes that
    [Person.__init__] adds.  [born] holds [int(person.born)]. *)
Record Person : Type := {
  name : string;
  lastname : string;
  email : string;
  nation : string;
  born : Z;
  gender : string;
  institute : string;
  group : string;
  country : string;
  applied : string;
  programming : string;
  python : string;
  open_source : string;
  score : option pyfloat;
  rank : option nat
}.

Definition fullname (p : Person) : string := name p ++ " " ++ lastname p.

Definition set_score (p : Person) (s : pyfloat) : Person :=
  {| name := name p; lastname := lastname p; email := email p;
     nation := nation p; born := born p; gender := gender p;
     institute := institute p; group := group p; country := country p;
     applied := applied p; programming := programming p; python := python p;
     open_source := open_source p; score := Some s; rank := rank p |}.

Definition set_rank (p : Person) (r : nat) : Person :=
  {| name := name p; lastname := lastname p; email := email p;
     nation := nation p; born := born p; gender := gender p;
     institute := institute p; group := group p; country := country p;
     applied := applied p; programming := programming p; python := python p;
     open_source := open_source p; score := score p; rank := Some r |}.

(** [list_of_float.mean] *)
Definition mean (self : list (option pyfloat)) : pyfloat :=
  let valid := omap (fun item => item) self in
  match valid with
  | [] => float_nan
  | _ => f_div_count (fold_left f_add valid (Fin 0)) (length valid)
  end.

(** *** rank_person *)

Definition rank_person (person : Person) (f : formula)
    (programming_rating open_source_rating python_rating : table pyfloat)
    (motivation_scores cv_scores : list (option pyfloat))
    (minsc maxsc : value) : result pyfloat :=
  do v_programming <- get_rating "programming" programming_rating (programming person) None;
  do v_open_source <- get_rating "open_source" open_source_rating (open_source person) None;
  do v_python <- get_rating "python" python_rating (python person) None;
  let vars : gmap string value :=
    <["python" := v_python]> (<["open_source" := v_open_source]>
      (<["programming" := v_programming]> ∅)) in
  do v_applied <-
    match applied person with
    | EmptyString => Raise IndexError
    | String c _ => Ok (VNum (of_bool (negb (has_char c "nN"))))
    end;
  let vars :=
    <["email" := VStr (email person)]> (
    <["cv" := VNum (mean cv_scores)]> (
    <["motivation" := VNum (mean motivation_scores)]> (
    <["country" := VStr (country person)]> (
    <["nation" := VStr (nation person)]> (
    <["applied" := v_applied]> (
    <["female" := VNum (of_bool (String.eqb (gender person) "Female"))]> (
    <["gender" := VStr (gender person)]> (
    <["born" := VNum (Fin (inject_Z (born person)))]> vars)))))))) in
  do v <- fst (eval_formula f vars);
  match v with
  | VNum sc =>
      if isnan sc then Ok sc
      else
        do lo <- v_le minsc (VNum sc);
        if negb lo then Raise (AssertionError minsc sc maxsc)
        else
          do hi <- v_le (VNum sc) maxsc;
          if hi then Ok sc else Raise (AssertionError minsc sc maxsc)
  | _ => Raise (Uncaught TypeError)
  end.

(** *** find_min_max *)

Definition SCORE_RANGE : list value :=
  [VNum (Fin (-1)); VNum (Fin 0); VNum (Fin 1)].

Definition HOST_COUNTRY : string := "Germany".

Definition _yield_values (var : string) (vals : list value) : list (string * value) :=
  map (pair var) vals.

(** [itertools.product]: the last axis varies fastest. *)
Fixpoint product {A} (axes : list (list A)) : list (list A) :=
  match axes with
  | [] => [[]]
  | axis :: rest =>
      let tails := product rest in
      flat_map (fun x => map (cons x) tails) axis
  end.

(** [dict(pairs)] *)
Definition dict (pairs : list (string * value)) : gmap string value :=
  fold_left (fun d kv => <[fst kv := snd kv]> d) pairs ∅.

(** [min(values)] and [max(values)] from the first element on: the
    candidate is replaced when the next element is smaller (larger). *)
Fixpoint min_from (m : value) (l : list value) : result value :=
  match l with
  | [] => Ok m
  | x :: l' => do b <- v_lt x m; min_from (if b then x else m) l'
  end.

Fixpoint max_from (m : value) (l : list value) : result value :=
  match l with
  | [] => Ok m
  | x :: l' => do b <- v_lt m x; max_from (if b then x else m) l'
  end.

Definition options (programming_rating open_source_rating python_rating : table pyfloat)
    : list (list (string * value)) :=
  product [
    _yield_values "born" [VNum (Fin 1900); VNum (Fin 2012)];
    _yield_values "gender" [VStr "M"; VStr "F"];
    _yield_values "female" [VNum (Fin 0); VNum (Fin 1)];
    _yield_values "nation" [VStr "Nicaragua"; VStr HOST_COUNTRY];
    _yield_values "country" [VStr "Nicaragua"; VStr HOST_COUNTRY];
    _yield_values "motivation" SCORE_RANGE;
    _yield_values "cv" SCORE_RANGE;
    _yield_values "programming" (map VNum (values programming_rating));
    _yield_values "open_source" (map VNum (values open_source_rating));
    _yield_values "applied" [VNum (Fin 0); VNum (Fin 1)];
    _yield_values "python" (map VNum (values python_rating))
  ].

Definition find_min_max (f : formula)
    (programming_rating open_source_rating python_rating : table pyfloat)
    : result (value * value) :=
  do vals <- mapM (fun vars => fst (eval_formula f (dict vars)))
                  (options programming_rating open_source_rating python_rating);
  match vals with
  | [] => Ok (VNum float_nan, VNum float_nan)
  | v :: vs =>
      do lo <- min_from v vs;
      do hi <- max_from v vs;
      Ok (lo, hi)
  end.

(** *** The grader and its rankings *)

Definition IDENTITIES : list nat := [0; 1]%nat.

(** The configuration the rankings read: the formula, the three rating
    tables, for each identity the grades it gave (by full name), and the
    table of equivalent spellings. *)
Record Config : Type := {
  cfg_formula : option formula;
  programming_rating : table pyfloat;
  open_source_rating : table pyfloat;
  python_rating : table pyfloat;
  motivation_score : nat -> table pyfloat;
  cv_score : nat -> table pyfloat;
  equivs : table (list string)
}.

Definition _gradings (section : nat -> table pyfloat) (person : Person)
    : list (option pyfloat) :=
  map (fun identity => lookup_key (fullname person) (section identity)) IDENTITIES.

(** [_equiv_master] *)
Fixpoint equiv_master_in (items : table (list string)) (variant : string) : string :=
  match items with
  | [] => strip variant
  | (key, spellings) :: items' =>
      if String.eqb (lower variant) (lower key)
         || existsb (String.eqb (lower variant)) (map lower spellings)
      then key
      else equiv_master_in items' variant
  end.

Definition _equiv_master (config : Config) (variant : string) : string :=
  equiv_master_in (equivs config) variant.

Definition lab_key (config : Config) (person : Person) : string :=
  let group := _equiv_master config (group person) in
  let institute := _equiv_master config (institute person) in
  institute ++ " / " ++ group.

(** [sorted(applications, key=lambda p: p.score, reverse=True)]: a stable
    sort into descending order of the keys.  It is Python's order when no
    score is the NaN; with a NaN among the keys the order that Python's
    merge sort gives depends on the comparisons it happens to make and is
    not modelled. *)
Definition key_lt (p q : Person) : bool :=
  match score p, score q with
  | Some a, Some b => f_lt a b
  | _, _ => false
  end.

Fixpoint insert_desc (p : Person) (l : list Person) : list Person :=
  match l with
  | [] => [p]
  | q :: l' => if key_lt p q then q :: insert_desc p l' else p :: l
  end.

Definition sorted_desc (l : list Person) : list Person :=
  foldr insert_desc [] l.

(** The loop over [ranked]: [labs] maps a lab to the rank it was given,
    [rank] is the next free rank. *)
Fixpoint rank_loop (config : Config) (labs : gmap string nat) (rank : nat)
    (ranked : list Person) : list Person * gmap string nat :=
  match ranked with
  | [] => ([], labs)
  | person :: rest =>
      let lab := lab_key config person in
      let '(labs, rank) :=
        match labs !! lab with
        | Some _ => (labs, rank)
        | None => (<[lab := rank]> labs, S rank)
        end in
      let person := set_rank person (default 0%nat (labs !! lab)) in
      let '(rest, labs) := rank_loop config labs rank rest in
      (person :: rest, labs)
  end.

(** [_assign_rankings]: the applicants in the order of [ranked], with the
    score and the rank the method stored in them, and the final [labs]. *)
Definition _assign_rankings (config : Config) (applications : list Person)
    : result (list Person * gmap string nat) :=
  match cfg_formula config with
  | None => Raise FormulaNotSet
  | Some f =>
      do bounds <- find_min_max f (programming_rating config)
                     (open_source_rating config) (python_rating config);
      let '(minsc, maxsc) := bounds in
      do scored <- mapM (fun person =>
                     do sc <- rank_person person f (programming_rating config)
                                (open_source_rating config) (python_rating config)
                                (_gradings (motivation_score config) person)
                                (_gradings (cv_score config) person)
                                minsc maxsc;
                     Ok (set_score person sc)) applications;
      let ranked := sorted_desc scored in
      Ok (rank_loop config ∅ 0 ranked)
  end.

End Formula.

(** *** Notions used to state the properties *)

(** The rank numbers of a list of applicants, in the order of the list. *)
Definition ranks (l : list Person) : list nat := omap rank l.

Definition ranks_of {L} (r : result (list Person * L)) : option (list nat) :=
  match r with
  | Ok (ranked, _) => Some (ranks ranked)
  | Raise _ => None
  end.

(** A list of lab keys in which the applicants of one lab stand next to
    each other: every key is the key just before it or a key not met so
    far.  [seen] holds the keys met, [last] the previous one. *)
Fixpoint grouped_from (seen : list string) (last : option string)
    (labs : list string) : bool :=
  match labs with
  | [] => true
  | lab :: rest =>
      (bool_decide (lab ∉ seen) || bool_decide (last = Some lab))
      && grouped_from (lab :: seen) (Some lab) rest
  end.

Definition grouped (labs : list string) : bool := grouped_from [] None labs.

(** Every rank in [labs] is below the counter, and no two labs have the
    same rank. *)
Definition labs_ok (labs : gmap string nat) (rank : nat) : Prop :=
  (forall k r, labs !! k = Some r -> (r < rank)%nat)
  /\ (forall k k' r, labs !! k = Some r -> labs !! k' = Some r -> k = k').

(** *** A small cohort *)

Module Scenario.

(** An applicant of lab [inst / grp] whose Python level is [level]. *)
Definition applicant (first inst grp level : string) : Person :=
  {| name := first; lastname := "Doe"; email := "doe@example.org";
     nation := "France"; born := 1985; gender := "Female";
     institute := inst; group := grp; country := "France";
     applied := "No"; programming := "competent"; python := level;
     open_source := "user"; score := None; rank := None |}.

Definition py_levels : table pyfloat :=
  [("expert", Fin (9 # 10)); ("competent", Fin (85 # 100)); ("novice", Fin (7 # 10))].

(** A configuration without grades and without equivalences. *)
Definition config (f : expr) : Config :=
  {| cfg_formula := Some f;
     programming_rating := [("competent", Fin 1)];
     open_source_rating := [("user", Fin 1)];
     python_rating := py_levels;
     motivation_score := fun _ => [];
     cv_score := fun _ => [];
     equivs := [] |}.

(** A (0.9, lab X/1), B (0.85, lab X/1), C (0.7, lab Y/1) under the
    formula [python]. *)
Definition cohort : list Person :=
  [applicant "A" "X" "1" "expert";
   applicant "B" "X" "1" "competent";
   applicant "C" "Y" "1" "novice"].

(** The same with B in lab Y/1 and C in lab X/1. *)
Definition split_cohort : list Person :=
  [applicant "A" "X" "1" "expert";
   applicant "B" "Y" "1" "competent";
   applicant "C" "X" "1" "novice"].

(** The formula [gender == 'Female']. *)
Definition is_female : expr := EEq (EVar "gender") (EStr "Female").

(** What [_assign_rankings] leaves for the first cohort. *)
Definition ranked_cohort : list Person * gmap string nat :=
  match _assign_rankings interp (config (EVar "python")) cohort with
  | Ok r => r
  | Raise _ => ([], ∅)
  end.

(** A and B as the ranking leaves them. *)
Definition ranked_A : Person :=
  set_rank (set_score (applicant "A" "X" "1" "expert") (Fin (9 # 10))) 0.
Definition ranked_B : Person :=
  set_rank (set_score (applicant "B" "X" "1" "competent") (Fin (85 # 100))) 0.

(** The values of the formula [python] over the search domain. *)
Definition python_scores : list pyfloat :=
  match mapM (fun vars => fst (eval_formula interp (EVar "python") (dict vars)))
             (options (programming_rating (config (EVar "python")))
                      (open_source_rating (config (EVar "python"))) py_levels) with
  | Ok vals => omap (fun v => match v with VNum x => Some x | _ => None end) vals
  | Raise _ => []
  end.

(** The variables [{'born': 1980}]. *)
Definition born_only : gmap string value := {[ "born" := VNum (Fin 1980) ]}.

End Scenario.

End Grader.

(** ** create_groups.py *)

Module CreateGroups.

Local Open Scope R_scope.

(** A two-dimensional array, as the list of its rows. *)
Abbreviation matrix := (list (list R)).

(** [Diverges] stands for a loop that has not ended when the fuel of the
    model is used up. *)
Inductive error : Type :=
| AssertionError
| IndexError
| Diverges.

Abbreviation result := (outcome error).

(** *** numpy *)

Definition np_sum (a : list R) : R := foldr Rplus 0 a.

Definition np_mean (a : list R) : R := np_sum a / INR (length a).

(** [np.std]: the square root of the mean of the squared deviations from
    the mean. *)
Definition np_std (a : list R) : R :=
  let m := np_mean a in
  sqrt (np_mean (map (fun x => (x - m) * (x - m)) a)).

(** [np.shape(data)[1]] *)
Definition shape1 (data : matrix) : nat := length (hd [] data).

(** [a[j]] *)
Definition getitem (a : list R) (j : nat) : result R :=
  match a !! j with
  | Some x => Ok x
  | None => Raise IndexError
  end.

(** [data[:, j]] *)
Definition column (data : matrix) (j : nat) : result (list R) :=
  if (j <? shape1 data)%nat then Ok (map (fun row => nth j row 0) data)
  else Raise IndexError.

(** [np.mean(rated, axis=0)] *)
Definition mean_axis0 (rated : matrix) : list R :=
  map (fun j => np_mean (map (fun row => nth j row 0) rated)) (seq 0 (shape1 rated)).

(** [a[gslice(i, K)]] *)
Definition gslice {A} (i K : nat) (a : list A) : list A :=
  take K (drop (i * K) a).

(** [data[idx] = data[idx[::-1]]] for [idx = [a, b]]: row [a] receives the
    old row [b] and row [b] the old row [a]. *)
Definition swap_rows (idx : nat * nat) (data : matrix) : result matrix :=
  match data !! fst idx, data !! snd idx with
  | Some ra, Some rb => Ok (<[snd idx := ra]> (<[fst idx := rb]> data))
  | _, _ => Raise IndexError
  end.

(** [weights * (1. / np.sum(weights))] *)
Definition normalized (weights : list R) : list R :=
  map (fun w => w * (1 / np_sum weights)) weights.

(** The exchange of the rows [a] and [b], as a map on the row numbers. *)
Definition transpose (a b i : nat) : nat :=
  if decide (i = b) then a else if decide (i = a) then b else i.

(** 64-bit unsigned arithmetic of [np.uint64] *)
Definition wrap64 (z : Z) : Z := (z mod 2 ^ 64)%Z.

Section Module_state.

(** The parameters the module reads from the configuration when it loads. *)
Variable NSTUDENTS : nat.
Variable GSIZE : nat.
Variable TRIALS : nat.
Variable REPETITIONS : nat.

Definition NGROUPS : nat := (NSTUDENTS / GSIZE)%nat.

(** The global random generator of numpy, as the state it is in.
    [np_random_seed s] is the state that [np.random.seed(s)] installs;
    the other three draw from the state and return the next one. *)
Context {G : Type}.
Variable np_random_seed : Z -> G.
Variable randint : nat -> G -> (nat * nat) * G.
Variable rand : G -> R * G.
Variable permutation : matrix -> G -> matrix * G.

(** The eight 64-bit words of [hashlib.sha512(bytes).digest()]. *)
Variable sha512_words : string -> list Z.

(** The matrix [rated] that [main] stores in the global of that name. *)
Variable rated : matrix.

(** *** Energy *)

Definition energy_mudeviation (data : list R) (K : nat) (mu : R) : R :=
  np_std (map (fun i => np_mean (gslice i K data)) (seq 0 NGROUPS)).

(** [energy] returns the energy and the array [weights], which it
    normalizes in place. *)
Definition energy (data : matrix) (K : nat) (weights : list R)
    : result (R * list R) :=
  let weights := normalized weights in
  let targets := mean_axis0 rated in
  match data with
  | [] => Raise AssertionError
  | _ =>
      if negb (shape1 data =? length targets)%nat then Raise AssertionError
      else
        let term (j : nat) : result R :=
          do w <- getitem weights j;
          do col <- column data j;
          do mu <- getitem targets j;
          Ok (w * energy_mudeviation col K mu) in
        do E0 <- term 0%nat;
        do E1 <- term 1%nat;
        do E2 <- term 2%nat;
        do E3 <- term 3%nat;
        do E4 <- term 4%nat;
        Ok (E0 + E1 + E2 + E3 + E4, weights)
  end.

(** The number that [energy] returns when it returns. *)
Definition energy_value (data : matrix) (K : nat) (weights : list R) : R :=
  let w := normalized weights in
  let term (j : nat) :=
    nth j w 0 * energy_mudeviation (map (fun row => nth j row 0) data) K 0 in
  term 0%nat + term 1%nat + term 2%nat + term 3%nat + term 4%nat.

(** *** optimize *)

(** The [while] loop that draws again until the two indices lie in
    different groups. *)
Fixpoint resample (fuel : nat) (K : nat) (idx : nat * nat) (g : G)
    : result ((nat * nat) * G) :=
  if (fst idx / K =? snd idx / K)%nat then
    match fuel with
    | O => Raise Diverges
    | S fuel' => let '(idx', g') := randint NSTUDENTS g in resample fuel' K idx' g'
    end
  else Ok (idx, g).

(** [optimize] leaves its result in [data]; the model returns the array,
    the weights and the generator as the call leaves them.  [fuel] bounds
    the number of draws of each [while] loop. *)
Fixpoint optimize (fuel : nat) (data : matrix) (K : nat) (rep : nat)
    (energy : matrix -> nat -> list R -> result (R * list R))
    (weights : list R) (p : R) (g : G) : result (matrix * list R * G) :=
  match rep with
  | O => Ok (data, weights, g)
  | S rep' =>
      let '(idx, g) := randint NSTUDENTS g in
      do drawn <- resample fuel K idx g;
      let '(idx, g) := drawn in
      do e1 <- energy data K weights;
      let '(E1, weights) := e1 in
      do data <- swap_rows idx data;
      do e2 <- energy data K weights;
      let '(E2, weights) := e2 in
      if Rlt_dec E1 E2 then
        do data <- swap_rows idx data;
        optimize fuel data K rep' energy weights p g
      else if Rlt_dec 0 p then
        let '(u, g) := rand g in
        if Rlt_dec u p then
          do data <- swap_rows idx data;
          optimize fuel data K rep' energy weights p g
        else optimize fuel data K rep' energy weights p g
      else optimize fuel data K rep' energy weights p g
  end.

(** *** main *)

(** [np.fromstring(digest, dtype=np.uint64).sum() // np.uint64(TRIALS)] *)
Definition random_seed_of (seed_text : string) : Z :=
  (fold_left (fun acc w => wrap64 (acc + w)) (sha512_words seed_text) 0
     / Z.of_nat TRIALS)%Z.

(** [seed * random_seed] in [np.uint64] *)
Definition trial_seed (random_seed : Z) (seed : Z) : Z :=
  wrap64 (seed * random_seed).

(** What [main] has collected when the loop over the trials ends. *)
Record Trials : Type := {
  initial_E_seeds : list R;
  E_seeds : list R;
  data_seeds : list matrix
}.

(** One round of the loop of [main].  It starts by seeding the generator,
    so the state [g] it finds is dropped. *)
Definition trial (fuel : nat) (random_seed : Z) (seed : Z) (weights : list R) (g : G)
    : result (R * R * matrix * list R * G) :=
  let g := np_random_seed (trial_seed random_seed seed) in
  let '(data, g) := permutation rated g in
  do e0 <- energy data GSIZE weights;
  let '(E0, weights) := e0 in
  do opt <- optimize fuel data GSIZE REPETITIONS energy weights 0 g;
  let '(data, weights, g) := opt in
  do e <- energy data GSIZE weights;
  let '(E, weights) := e in
  Ok (E0, E, data, weights, g).

Fixpoint trials (fuel : nat) (random_seed : Z) (seeds : list Z) (acc : Trials)
    (weights : list R) (g : G) : result (Trials * list R * G) :=
  match seeds with
  | [] => Ok (acc, weights, g)
  | seed :: seeds' =>
      do t <- trial fuel random_seed seed weights g;
      let '(E0, E, data, weights, g) := t in
      trials fuel random_seed seeds'
        {| initial_E_seeds := initial_E_seeds acc ++ [E0];
           E_seeds := E_seeds acc ++ [E];
           data_seeds := data_seeds acc ++ [data] |}
        weights g
  end.

(** [main], from the generator state [g] it is started in, up to the
    three lists it prints from; [seed_text] is the seed of the
    configuration. *)
Definition main (fuel : nat) (seed_text : string) (g : G)
    : result (Trials * list R * G) :=
  let weights := [1; 1; 1; 1; 1] in
  let random_seed := random_seed_of seed_text in
  let g := np_random_seed random_seed in
  trials fuel random_seed (map Z.of_nat (seq 1 TRIALS))
    {| initial_E_seeds := []; E_seeds := []; data_seeds := [] |} weights g.

(** [np.argsort] *)
Variable np_argsort : list R -> list nat.

(** [data_seeds[pos[0]]] for [pos = np.argsort(E_seeds)]: the distribution
    that [main] prints as the optimal one. *)
Definition optimal (t : Trials) : result matrix :=
  match np_argsort (E_seeds t) with
  | [] => Raise IndexError
  | pos0 :: _ =>
      match data_seeds t !! pos0 with
      | Some data => Ok data
      | None => Raise IndexError
      end
  end.

(** The loop of [main] with every trial started from the weights
    [[1, 1, 1, 1, 1]] of [main], keeping the three lists only. *)
Fixpoint isolated_trials (fuel : nat) (random_seed : Z) (seeds : list Z)
    (acc : Trials) (g : G) : result Trials :=
  match seeds with
  | [] => Ok acc
  | seed :: seeds' =>
      do t <- trial fuel random_seed seed [1; 1; 1; 1; 1] g;
      let '(E0, E, data, _, _) := t in
      isolated_trials fuel random_seed seeds'
        {| initial_E_seeds := initial_E_seeds acc ++ [E0];
           E_seeds := E_seeds acc ++ [E];
           data_seeds := data_seeds acc ++ [data] |} g
  end.

End Module_state.

(** The three lists of a run of [main]. *)
Definition collected {G} (r : result (Trials * list R * G)) : result Trials :=
  match r with
  | Ok (t, _, _) => Ok t
  | Raise e => Raise e
  end.

(** *** The energy as the specification words it *)

(** The groups of [K] rows each. *)
Definition groups (K : nat) (data : matrix) : list matrix :=
  map (fun i => gslice i K data) (seq 0 (length data / K)).

(** The mean of feature [j] over the rows of a group. *)
Definition group_mean (j : nat) (block : matrix) : R :=
  np_mean (map (fun row => nth j row 0) block).

(** The sum, over the features, of the normalized weight of the feature
    times the standard deviation across the groups of the group means. *)
Definition energy_spec (data : matrix) (K : nat) (weights : list R) : R :=
  np_sum (map (fun j => nth j weights 0 / np_sum weights
                        * np_std (map (group_mean j) (groups K data)))
              (seq 0 (length weights))).

(** *** A small run *)

Module Demo.

(** Four students, five ratings and the identifier each. *)
Definition students : matrix :=
  [[1; 0; 2; 1; 0; 0]; [0; 1; 1; 1; 0; 1]; [1; 1; 0; 0; 1; 2]; [0; 0; 1; 2; 1; 3]].

Definition ones : list R := [1; 1; 1; 1; 1].

(** A generator that always draws the rows 0 and 2 and the number 0. *)
Definition draw_0_2 (n : nat) (g : unit) : (nat * nat) * unit := ((0, 2)%nat, g).
Definition draw_zero (g : unit) : R * unit := (0, g).

(** Seeding that generator, a permutation that keeps the order, and a
    digest without words. *)
Definition seed_unit (s : Z) : unit := tt.
Definition keep_order (m : matrix) (g : unit) : matrix * unit := (m, g).
Definition no_words (text : string) : list Z := [].

End Demo.

End CreateGroups.

(** ** More of grader.py *)

Module GraderMore.

Import PyStr Grader.

(** [MissingRating.key] *)
Definition missing_key (e : exn) : option string :=
  match e with
  | MissingRating _ key => Some key
  | _ => None
  end.

(** [d[key] = value] on a section: the value of a key that is present is
    replaced where it stands, a new key goes to the end. *)
Fixpoint setitem {A} (key : string) (v : A) (d : table A) : table A :=
  match d with
  | [] => [(key, v)]
  | (k, x) :: d' =>
      if String.eqb k key then (k, v) :: d' else (k, x) :: setitem key v d'
  end.

(** [s.split(sep)] for a one-character separator *)
Fixpoint split (sep : ascii) (s : string) : list string :=
  match s with
  | EmptyString => [EmptyString]
  | String c s' =>
      if Ascii.eqb c sep then EmptyString :: split sep s'
      else
        match split sep s' with
        | piece :: pieces => String c piece :: pieces
        | [] => [String c EmptyString]
        end
  end.

(** [sep.join(items)] *)
Fixpoint join (sep : string) (items : list string) : string :=
  match items with
  | [] => EmptyString
  | [item] => item
  | item :: items' => item ++ sep ++ join sep items'
  end.

(** [list_of_equivs(arg)] and [str] of such a list *)
Definition list_of_equivs (arg : option string) : list string :=
  match arg with
  | None => []
  | Some text => map strip (split "=" text)
  end.

Definition equivs_str (self : list string) : string := join " = " self.

(** [do_equiv] with a non-empty argument: the table of equivalences it
    leaves. *)
Definition do_equiv (equivs : table (list string)) (args : string)
    : table (list string) :=
  match map strip (split "=" args) with
  | [] => equivs
  | variant :: new =>
      let saved := default [] (lookup_key variant equivs) in
      setitem variant (saved ++ new)%list equivs
  end.

(** Whether [_equiv_master] finds an entry for [variant]. *)
Definition known (items : table (list string)) (variant : string) : bool :=
  existsb (fun entry =>
             String.eqb (lower variant) (lower (fst entry))
             || existsb (String.eqb (lower variant)) (map lower (snd entry)))
          items.

(** [sorted(applications, key=lambda p: p.rank)]: a stable sort into
    ascending order of the ranks.  Two applicants are compared as soon as
    there are two, and a rank that is [None] cannot be compared. *)
Definition rank_lt (p q : Person) : bool :=
  match rank p, rank q with
  | Some a, Some b => (a <? b)%nat
  | _, _ => false
  end.

Fixpoint insert_asc (p : Person) (l : list Person) : list Person :=
  match l with
  | [] => [p]
  | q :: l' => if rank_lt q p then q :: insert_asc p l' else p :: l
  end.

Definition _ranked (applications : list Person) : result (list Person) :=
  if (2 <=? length applications)%nat
     && existsb (fun p => match rank p with None => true | Some _ => false end)
                applications
  then Raise (Uncaught TypeError)
  else Ok (foldr insert_asc [] applications).

(** The rank of [p] is at most the rank of [q]. *)
Definition rank_le (p q : Person) : Prop :=
  exists a b, rank p = Some a /\ rank q = Some b /\ (a <= b)%nat.

(** An applicant as it is before [_assign_rankings]. *)
Definition unranked (p : Person) : Person :=
  {| name := name p; lastname := lastname p; email := email p;
     nation := nation p; born := born p; gender := gender p;
     institute := institute p; group := group p; country := country p;
     applied := applied p; programming := programming p; python := python p;
     open_source := open_source p; score := None; rank := None |}.

(** [_write_file]: the lines it writes, and the number of rows that its
    message reports ([i + 1] for the last [i] of the loop, 0 before it). *)
Definition newline : string := String (ascii_of_nat 10) EmptyString.

Definition _write_file (persons : list Person) : list string * nat :=
  let header := "$NAME$;$SURNAME$;$EMAIL$" in
  let rows :=
    map (fun person =>
           join ";" [name person; lastname person; email person] ++ newline)
        persons in
  let i := fold_left (fun _ i => i) (seq 0 (length persons)) 0%nat in
  ((header ++ newline) :: rows, (i + 1)%nat).

(** [p] does not stand before an applicant with a greater score. *)
Definition not_below (p q : Person) : Prop := key_lt p q = false.

(** An applicant with a score that is not the NaN. *)
Definition has_number (p : Person) : Prop :=
  exists s, score p = Some s /\ isnan s = false.

Definition has_numberb (p : Person) : bool :=
  match score p with
  | Some s => negb (isnan s)
  | None => false
  end.

(** The items that [list_of_equivs] and [str] exchange. *)
Definition clean_item (x : string) : Prop := strip x = x /\ has_char "=" x = false.

(** The names of the variables of a point of the search domain. *)
Definition domain_names : list string :=
  ["born"; "gender"; "female"; "nation"; "country"; "motivation"; "cv";
   "programming"; "open_source"; "applied"; "python"].

End GraderMore.

(** * Properties *)

Module PyStrFacts.

Import PyStr.

Lemma append_String c p q : String c p ++ q = String c (p ++ q).
Proof. reflexivity. Qed.

Lemma partition_head_app_sep sep p r :
  has_char sep p = false ->
  partition_head sep (p ++ String sep r) = p.
Proof.
  induction p as [|c p IH]; simpl.
  - intros _. now rewrite Ascii.eqb_refl.
  - intros H. apply orb_false_iff in H as [Hc Hp].
    rewrite ?append_String. simpl. rewrite Hc. f_equal. now apply IH.
Qed.

Lemma partition_head_app sep p q :
  has_char sep p = false ->
  partition_head sep (p ++ q) = p ++ partition_head sep q.
Proof.
  induction p as [|c p IH]; simpl; [easy|].
  intros H. apply orb_false_iff in H as [Hc Hp].
  rewrite ?append_String. simpl. rewrite Hc. f_equal. now apply IH.
Qed.

Lemma partition_head_absent sep p :
  has_char sep p = false -> partition_head sep p = p.
Proof.
  induction p as [|c p IH]; simpl; [easy|].
  intros H. apply orb_false_iff in H as [Hc Hp].
  rewrite Hc. f_equal. now apply IH.
Qed.

Lemma has_char_partition_head sep s : has_char sep (partition_head sep s) = false.
Proof.
  induction s as [|c s IH]; simpl; [easy|].
  destruct (Ascii.eqb c sep) eqn:E; simpl; [easy|]. now rewrite E.
Qed.

Lemma has_char_partition_head_other sep c s :
  has_char c s = false -> has_char c (partition_head sep s) = false.
Proof.
  induction s as [|d s IH]; simpl; [easy|].
  intros H. apply orb_false_iff in H as [Hd Hs].
  destruct (Ascii.eqb d sep); simpl; [easy|]. rewrite Hd. now apply IH.
Qed.

Lemma has_char_lstrip c s : has_char c s = false -> has_char c (lstrip s) = false.
Proof.
  induction s as [|d s IH]; simpl; [easy|].
  intros H. destruct (isspace d); [|exact H].
  apply orb_false_iff in H as [_ Hs]. now apply IH.
Qed.

Lemma has_char_rstrip c s : has_char c s = false -> has_char c (rstrip s) = false.
Proof.
  induction s as [|d s IH]; simpl; [easy|].
  intros H. apply orb_false_iff in H as [Hd Hs].
  specialize (IH Hs).
  destruct (rstrip s) eqn:E.
  - destruct (isspace d); simpl; [easy|]. now rewrite Hd.
  - simpl in *. now rewrite Hd, IH.
Qed.

Lemma has_char_strip c s : has_char c s = false -> has_char c (strip s) = false.
Proof. intros H. unfold strip. now apply has_char_rstrip, has_char_lstrip. Qed.

Lemma lstrip_clean s : starts_clean (lstrip s).
Proof.
  induction s as [|c s IH]; simpl; [exact I|].
  destruct (isspace c) eqn:E; [exact IH | exact E].
Qed.

Lemma lstrip_of_clean s : starts_clean s -> lstrip s = s.
Proof. destruct s as [|c s]; simpl; [easy|]. now intros ->. Qed.

Lemma rstrip_clean s : starts_clean s -> starts_clean (rstrip s).
Proof.
  destruct s as [|c s]; simpl; [easy|]. intros Hc.
  destruct (rstrip s); [rewrite Hc|]; exact Hc.
Qed.

Lemma rstrip_idem s : rstrip (rstrip s) = rstrip s.
Proof.
  induction s as [|c s IH]; simpl; [easy|].
  destruct (rstrip s) as [|d r] eqn:E.
  - destruct (isspace c) eqn:Ec; simpl; [easy|]. now rewrite Ec.
  - change (rstrip (String c (String d r)) = String c (String d r)).
    simpl. simpl in IH. now rewrite IH.
Qed.

Lemma strip_idem s : strip (strip s) = strip s.
Proof.
  unfold strip.
  rewrite (lstrip_of_clean (rstrip (lstrip s))).
  - apply rstrip_idem.
  - apply rstrip_clean, lstrip_clean.
Qed.

End PyStrFacts.

Module GraderFacts.

Import PyStr PyStrFacts Grader.

(** The key of a label that is already a key is the label itself. *)
Lemma rating_key_idem key : rating_key (rating_key key) = rating_key key.
Proof.
  unfold rating_key.
  set (k := partition_head "/" (partition_head "(" key)).
  assert (Hp : has_char "(" (strip k) = false).
  { apply has_char_strip. unfold k.
    apply has_char_partition_head_other, has_char_partition_head. }
  assert (Hs : has_char "/" (strip k) = false).
  { apply has_char_strip. unfold k. apply has_char_partition_head. }
  rewrite (partition_head_absent "(" _ Hp), (partition_head_absent "/" _ Hs).
  apply strip_idem.
Qed.

Lemma rating_key_bare p :
  has_char "(" p = false -> has_char "/" p = false ->
  rating_key p = strip p.
Proof.
  intros Hp Hs. unfold rating_key.
  now rewrite (partition_head_absent "(" _ Hp), (partition_head_absent "/" _ Hs).
Qed.

Lemma rating_key_paren p r :
  has_char "(" p = false -> has_char "/" p = false ->
  rating_key (p ++ String "(" r) = strip p.
Proof.
  intros Hp Hs. unfold rating_key.
  now rewrite (partition_head_app_sep "(" _ _ Hp), (partition_head_absent "/" _ Hs).
Qed.

Lemma rating_key_slash p r :
  has_char "(" p = false -> has_char "/" p = false ->
  rating_key (p ++ String "/" r) = strip p.
Proof.
  intros Hp Hs. unfold rating_key.
  rewrite (partition_head_app "(" _ _ Hp). simpl.
  now rewrite (partition_head_app_sep "/" _ _ Hs).
Qed.

Lemma get_rating_by_key name dict k1 k2 fallback :
  rating_key k1 = rating_key k2 ->
  get_rating name dict k1 fallback = get_rating name dict k2 fallback.
Proof. intros H. unfold get_rating. now rewrite H. Qed.

(** C8. For every rating table, category name, fallback and label whose
    bare prefix [p] (the text before the first parenthesis or slash) is
    followed by a parenthesized explanation or by a slash variant,
    [get_rating] returns what it returns on the prefix with the surrounding
    white space trimmed: the same value, or [MissingRating] on the same
    key. *)
Theorem get_rating_suffix_ignored name dict fallback p r r' :
  has_char "(" p = false -> has_char "/" p = false ->
  get_rating name dict (p ++ String "(" r) fallback
    = get_rating name dict (strip p) fallback
  /\ get_rating name dict (p ++ String "/" r') fallback
    = get_rating name dict (strip p) fallback.
Proof.
  intros Hp Hs.
  assert (Hk : rating_key (strip p) = strip p).
  { rewrite <- (rating_key_bare p Hp Hs). apply rating_key_idem. }
  split; apply get_rating_by_key; rewrite Hk.
  - now apply rating_key_paren.
  - now apply rating_key_slash.
Qed.

(** *** The order of numbers *)

Lemma f_lt_le x y : f_lt x y = true -> f_le x y = true.
Proof.
  destruct x as [a| | |], y as [b| | |]; simpl; try easy.
  intros H. apply negb_true_iff in H.
  apply Qle_bool_iff. apply Qlt_le_weak, Qnot_le_lt.
  intros Hle. apply Qle_bool_iff in Hle. congruence.
Qed.

Lemma f_not_lt_le x y :
  isnan x = false -> isnan y = false -> f_lt x y = false -> f_le y x = true.
Proof.
  destruct x as [a| | |], y as [b| | |]; simpl; try easy.
  intros _ _ H. now apply negb_false_iff in H.
Qed.

Lemma f_le_refl x : isnan x = false -> f_le x x = true.
Proof.
  destruct x as [a| | |]; simpl; try easy.
  intros _. apply Qle_bool_iff, Qle_refl.
Qed.

Lemma f_le_trans x y z : f_le x y = true -> f_le y z = true -> f_le x z = true.
Proof.
  destruct x as [a| | |], y as [b| | |], z as [c| | |]; simpl; try easy.
  rewrite !Qle_bool_iff. apply Qle_trans.
Qed.

Lemma f_le_not_nan x y : f_le x y = true -> isnan x = false /\ isnan y = false.
Proof. destruct x, y; simpl; easy. Qed.

(** [min] of non-NaN numbers is one of them and lies below all of them. *)
Lemma min_from_numbers (l : list pyfloat) : forall m,
  isnan m = false -> Forall (fun x => isnan x = false) l ->
  exists lo, min_from (VNum m) (map VNum l) = Ok (VNum lo)
    /\ In lo (m :: l) /\ f_le lo m = true /\ Forall (fun x => f_le lo x = true) l.
Proof.
  induction l as [|x l IH]; intros m Hm Hl; simpl.
  - exists m. repeat split; [now left | now apply f_le_refl | constructor].
  - inversion Hl as [|? ? Hx Hl']; subst.
    destruct (f_lt x m) eqn:E.
    + destruct (IH x Hx Hl') as (lo & Hrun & Hin & Hle & Hall).
      exists lo. repeat split; [exact Hrun | | | ].
      * right. exact Hin.
      * eapply f_le_trans; [exact Hle | now apply f_lt_le].
      * constructor; assumption.
    + destruct (IH m Hm Hl') as (lo & Hrun & Hin & Hle & Hall).
      exists lo. repeat split; [exact Hrun | | exact Hle | ].
      * destruct Hin as [<- |Hin]; [now left | right; now right].
      * constructor; [|exact Hall].
        eapply f_le_trans; [exact Hle | now apply f_not_lt_le].
Qed.

Lemma max_from_numbers (l : list pyfloat) : forall m,
  isnan m = false -> Forall (fun x => isnan x = false) l ->
  exists hi, max_from (VNum m) (map VNum l) = Ok (VNum hi)
    /\ In hi (m :: l) /\ f_le m hi = true /\ Forall (fun x => f_le x hi = true) l.
Proof.
  induction l as [|x l IH]; intros m Hm Hl; simpl.
  - exists m. repeat split; [now left | now apply f_le_refl | constructor].
  - inversion Hl as [|? ? Hx Hl']; subst.
    destruct (f_lt m x) eqn:E.
    + destruct (IH x Hx Hl') as (hi & Hrun & Hin & Hle & Hall).
      exists hi. repeat split; [exact Hrun | | | ].
      * right. exact Hin.
      * apply (f_le_trans m x hi); [now apply f_lt_le | exact Hle].
      * constructor; assumption.
    + destruct (IH m Hm Hl') as (hi & Hrun & Hin & Hle & Hall).
      exists hi. repeat split; [exact Hrun | | exact Hle | ].
      * destruct Hin as [<- |Hin]; [now left | right; now right].
      * constructor; [|exact Hall].
        apply (f_le_trans x m hi); [now apply f_not_lt_le | exact Hle].
Qed.

(** *** The search domain *)

Lemma flat_map_nil {A B} (l : list A) (g : A -> list B) :
  (forall x, g x = []) -> flat_map g l = [].
Proof.
  intros Hg. induction l as [|x l IH]; simpl; [easy|]. now rewrite Hg, IH.
Qed.

Lemma product_empty_axis {A} (axes : list (list A)) :
  In [] axes -> product axes = [].
Proof.
  induction axes as [|axis rest IH]; simpl; [easy|].
  intros [-> |Hin]; [easy|].
  rewrite (IH Hin). now apply flat_map_nil.
Qed.

Lemma product_nonempty {A} (axes : list (list A)) :
  Forall (fun axis => axis <> []) axes -> product axes <> [].
Proof.
  induction 1 as [|axis rest Hax _ IH]; simpl; [easy|].
  destruct axis as [|x axis]; [easy|]. simpl.
  destruct (product rest) as [|t ts]; [easy|]. simpl. easy.
Qed.

Lemma options_empty pr osr pyr :
  pr = [] \/ osr = [] \/ pyr = [] -> options pr osr pyr = [].
Proof.
  intros H. unfold options. apply product_empty_axis.
  destruct H as [-> |[-> | ->]]; simpl; tauto.
Qed.

Lemma options_nonempty pr osr pyr :
  pr <> [] -> osr <> [] -> pyr <> [] -> options pr osr pyr <> [].
Proof.
  intros H1 H2 H3. unfold options. apply product_nonempty.
  destruct pr; [easy|]. destruct osr; [easy|]. destruct pyr; [easy|].
  repeat constructor; easy.
Qed.

Lemma mapM_length {E A B} (g : A -> outcome E B) (l : list A) : forall l',
  mapM g l = Ok l' -> length l' = length l.
Proof.
  induction l as [|a l IH]; simpl; intros l' H.
  - now inversion H.
  - destruct (g a); [|easy]. simpl in H.
    destruct (mapM g l) as [bs|]; [|easy]. simpl in H.
    inversion H. simpl. f_equal. now apply IH.
Qed.

Lemma not_nan_forallb (l : list pyfloat) :
  forallb (fun x => negb (isnan x)) l = true -> Forall (fun x => isnan x = false) l.
Proof.
  induction l as [|x l IH]; simpl; intros H; constructor.
  - apply andb_true_iff in H as [H _]. now apply negb_true_iff.
  - apply andb_true_iff in H as [_ H]. now apply IH.
Qed.

Section Formula_facts.

Context {formula : Type}.
Variable py_expr : formula -> gmap string value
                   -> outcome pyerr value * gmap string value.

(** C9 (amended). When one of the three rating tables has no value, the
    search domain is empty and [find_min_max] returns the pair (NaN, NaN).
    When none is empty and the formula evaluates to a number other than
    NaN at every point of the domain, it returns a pair [(lo, hi)] of two
    of these numbers with [lo <= x <= hi] for every one of them [x]. *)
Theorem find_min_max_bounds (f : formula) (pr osr pyr : table pyfloat) :
  (pr = [] \/ osr = [] \/ pyr = [] ->
   find_min_max py_expr f pr osr pyr = Ok (VNum float_nan, VNum float_nan))
  /\ (pr <> [] -> osr <> [] -> pyr <> [] ->
      forall scores : list pyfloat,
        mapM (fun vars => fst (eval_formula py_expr f (dict vars)))
             (options pr osr pyr) = Ok (map VNum scores) ->
        Forall (fun x => isnan x = false) scores ->
        exists lo hi,
          find_min_max py_expr f pr osr pyr = Ok (VNum lo, VNum hi)
          /\ In lo scores /\ In hi scores
          /\ Forall (fun x => f_le lo x = true /\ f_le x hi = true) scores).
Proof.
  split.
  - intros H. unfold find_min_max. now rewrite (options_empty _ _ _ H).
  - intros H1 H2 H3 scores Hrun Hnan. unfold find_min_max. rewrite Hrun. simpl.
    destruct scores as [|m l].
    { apply mapM_length in Hrun. simpl in Hrun.
      destruct (options pr osr pyr) eqn:E; [|easy].
      now apply options_nonempty in E. }
    simpl. inversion Hnan as [|? ? Hm Hl]; subst.
    destruct (min_from_numbers l m Hm Hl) as (lo & Hlo & Hinlo & Hlom & Hlol).
    destruct (max_from_numbers l m Hm Hl) as (hi & Hhi & Hinhi & Hmhi & Hlhi).
    exists lo, hi. rewrite Hlo, Hhi. simpl.
    repeat split; [exact Hinlo | exact Hinhi | ].
    constructor; [split; assumption|].
    rewrite Forall_forall in Hlol, Hlhi |- *.
    intros x Hx. split; [now apply Hlol | now apply Hlhi].
Qed.

(** *** The variables after an evaluation *)

Lemma eval_globals_other (vars : gmap string value) k :
  k <> "__builtins__" -> eval_globals vars !! k = vars !! k.
Proof.
  intros Hk. unfold eval_globals.
  destruct (vars !! "__builtins__"); [reflexivity|].
  now rewrite lookup_insert_ne by congruence.
Qed.

Lemma py_eval_vars (f : formula) (vars : gmap string value) :
  vars !! "__builtins__" = None ->
  py_eval py_expr f vars = py_expr f (<["__builtins__" := VBuiltins]> vars).
Proof. intros H. unfold py_eval, eval_globals. now rewrite H. Qed.

(** C5 (amended). [eval_formula] itself changes the caller's mapping at
    the key ["__builtins__"] only: every other variable is after the call
    as the evaluation of the formula left it, whether the evaluation
    succeeds or fails, so that a variable the formula does not write keeps
    its value, and one that it writes does not.  For a formula whose
    evaluation leaves its namespace as it found it, called on a mapping
    without ["__builtins__"]: the mapping is left as it was when
    [eval_formula] raises its [ValueError] (whose report shows that same
    mapping); when the evaluation succeeds, or fails in another way, the
    mapping has gained the ["__builtins__"] entry and nothing else has
    changed. *)
Theorem eval_formula_vars (f : formula) (vars : gmap string value) :
  (forall k, k <> "__builtins__" ->
     snd (eval_formula py_expr f vars) !! k
     = snd (py_expr f (eval_globals vars)) !! k
     /\ (snd (py_expr f (eval_globals vars)) !! k = eval_globals vars !! k ->
         snd (eval_formula py_expr f vars) !! k = vars !! k))
  /\ (vars !! "__builtins__" = None ->
      let globals := <["__builtins__" := VBuiltins]> vars in
      snd (py_expr f globals) = globals ->
      match fst (eval_formula py_expr f vars) with
      | Raise (ValueError _ shown) =>
          snd (eval_formula py_expr f vars) = vars /\ shown = vars
      | _ => snd (eval_formula py_expr f vars) = globals
      end).
Proof.
  split.
  - intros k Hk. unfold eval_formula, py_eval.
    assert (E : snd (let (r, vars0) := py_expr f (eval_globals vars) in
                     match r with
                     | Ok v => (Ok v, vars0)
                     | Raise ((NameError _ | TypeError) as e) =>
                         (Raise (ValueError e (delete "__builtins__" vars0)),
                          delete "__builtins__" vars0)
                     | Raise e => (Raise (Uncaught e), vars0)
                     end) !! k = snd (py_expr f (eval_globals vars)) !! k).
    { destruct (py_expr f (eval_globals vars)) as [[r|[x| |]] after]; simpl;
        rewrite ?lookup_delete_ne by congruence; reflexivity. }
    split; [exact E|].
    intros Hk'. rewrite E, Hk'. now apply eval_globals_other.
  - intros Hb globals. unfold eval_formula. rewrite (py_eval_vars f vars Hb).
    fold globals.
    destruct (py_expr f globals) as [[r|[x| |]] after]; simpl; intros ->;
      unfold globals; rewrite ?delete_insert_eq, ?delete_id by exact Hb; auto.
Qed.

(** *** The scores that [rank_person] returns *)

(** A score that [rank_person] returns has passed its assertion: it is
    the NaN or lies between the two bounds it was given. *)
Lemma rank_person_within_bounds person (f : formula) pr osr pyr
    motivation_scores cv_scores minsc maxsc sc :
  rank_person py_expr person f pr osr pyr motivation_scores cv_scores minsc maxsc
    = Ok sc ->
  isnan sc = true
  \/ (v_le minsc (VNum sc) = Ok true /\ v_le (VNum sc) maxsc = Ok true).
Proof.
  unfold rank_person. intros H.
  destruct (get_rating "programming" pr _ None); [|discriminate].
  destruct (get_rating "open_source" osr _ None); [|discriminate].
  destruct (get_rating "python" pyr _ None); [|discriminate].
  cbn [bind] in H. destruct (applied person); [discriminate|]. cbn [bind] in H.
  destruct (fst (eval_formula _ _ _)) as [[x| |]|]; try discriminate.
  cbn [bind] in H.
  destruct (isnan x) eqn:Hnan; [injection H as <-; now left|].
  destruct (v_le minsc (VNum x)) as [[|]|] eqn:Hlo; cbn [bind negb] in H;
    try discriminate.
  destruct (v_le (VNum x) maxsc) as [[|]|] eqn:Hhi; cbn [bind] in H;
    try discriminate.
  injection H as <-. now right.
Qed.

(** *** The loop that hands out the ranks *)

Lemma lab_key_set_rank (config : Config (formula := formula)) p r :
  lab_key config (set_rank p r) = lab_key config p.
Proof. reflexivity. Qed.

Lemma labs_ok_insert labs rank lab :
  labs_ok labs rank -> labs !! lab = None ->
  labs_ok (<[lab := rank]> labs) (S rank).
Proof.
  intros [Hb Hi] Hnone. split.
  - intros k r. rewrite lookup_insert.
    destruct (decide (lab = k)) as [_|_].
    + intros [= <-]. lia.
    + intros Hk. apply Hb in Hk. lia.
  - intros k k' r. rewrite !lookup_insert.
    destruct (decide (lab = k)) as [<-|_], (decide (lab = k')) as [<-|_];
      try easy.
    + intros [= <-] Hk. apply Hb in Hk. lia.
    + intros Hk [= <-]. apply Hb in Hk. lia.
    + apply Hi.
Qed.

Lemma rank_loop_labs (config : Config (formula := formula)) (ranked : list Person) :
  forall labs rank out labs',
  labs_ok labs rank ->
  rank_loop config labs rank ranked = (out, labs') ->
  (exists rank', labs_ok labs' rank')
  /\ (forall k r, labs !! k = Some r -> labs' !! k = Some r)
  /\ Forall (fun p => exists r, Grader.rank p = Some r
                        /\ labs' !! lab_key config p = Some r) out.
Proof.
  induction ranked as [|person rest IH]; intros labs rank out labs' Hok Hrun.
  - simpl in Hrun. inversion Hrun; subst. eauto.
  - simpl in Hrun.
    set (lab := lab_key config person) in *.
    destruct (labs !! lab) as [r|] eqn:Hlab.
    + rewrite Hlab in Hrun. simpl in Hrun.
      destruct (rank_loop config labs rank rest) as [out1 labs1] eqn:Hrest.
      injection Hrun as <- <-.
      destruct (IH _ _ _ _ Hok Hrest) as (Hok' & Hext & Hall).
      repeat split; [exact Hok' | exact Hext |].
      constructor; [|exact Hall].
      exists r. split; [reflexivity|]. rewrite lab_key_set_rank. now apply Hext.
    + rewrite lookup_insert_eq in Hrun. simpl in Hrun.
      destruct (rank_loop config (<[lab:=rank]> labs) (S rank) rest)
        as [out1 labs1] eqn:Hrest.
      injection Hrun as <- <-.
      pose proof (labs_ok_insert _ _ _ Hok Hlab) as Hok1.
      destruct (IH _ _ _ _ Hok1 Hrest) as (Hok' & Hext & Hall).
      repeat split; [exact Hok' | |].
      * intros k r Hk. apply Hext. rewrite lookup_insert_ne; [exact Hk|].
        intros ->. congruence.
      * constructor; [|exact Hall].
        exists rank. split; [reflexivity|]. rewrite lab_key_set_rank.
        apply Hext. apply lookup_insert_eq.
Qed.

Lemma assign_rankings_loop (config : Config) (applications out : list Person) labs :
  _assign_rankings py_expr config applications = Ok (out, labs) ->
  exists scored, rank_loop config ∅ 0 (sorted_desc scored) = (out, labs).
Proof.
  unfold _assign_rankings. destruct (cfg_formula config) as [f|]; [|easy].
  destruct (find_min_max _ _ _ _ _) as [[minsc maxsc]|]; [|easy]. simpl.
  destruct (mapM _ applications) as [scored|]; [|easy]. simpl.
  intros [= H]. now exists scored.
Qed.

Lemma rank_loop_labels (config : Config (formula := formula)) (ranked : list Person) :
  forall labs rank out labs',
  rank_loop config labs rank ranked = (out, labs') ->
  map (lab_key config) out = map (lab_key config) ranked.
Proof.
  induction ranked as [|person rest IH]; intros labs rank out labs' Hrun;
    simpl in Hrun.
  - now inversion Hrun.
  - destruct (labs !! lab_key config person);
      [|rewrite lookup_insert_eq in Hrun]; simpl in Hrun;
      destruct (rank_loop config _ _ rest) as [out1 labs1] eqn:Hrest;
      inversion Hrun; subst; simpl; f_equal; eapply IH; exact Hrest.
Qed.

(** With the applicants of each lab next to each other the ranks never
    go down; [lb] is the rank of the previous applicant. *)
Lemma rank_loop_grouped (config : Config (formula := formula)) (ranked : list Person) :
  forall labs rank seen last out labs',
  (forall k, labs !! k = None <-> k ∉ seen) ->
  (forall k r, labs !! k = Some r -> (r < rank)%nat) ->
  (forall l, last = Some l -> labs !! l = Some (rank - 1)%nat) ->
  grouped_from seen last (map (lab_key config) ranked) = true ->
  rank_loop config labs rank ranked = (out, labs') ->
  StronglySorted le (match last with Some _ => rank - 1 | None => 0 end%nat :: ranks out).
Proof.
  induction ranked as [|person rest IH];
    intros labs rank seen last out labs' Hdom Hb Hlast Hg Hrun; simpl in Hrun.
  - inversion Hrun; subst. repeat constructor.
  - simpl in Hg. apply andb_true_iff in Hg as [Hhead Hg].
    set (lab := lab_key config person) in *.
    destruct (labs !! lab) as [r|] eqn:Hlab.
    + rewrite Hlab in Hrun. simpl in Hrun.
      destruct (rank_loop config labs rank rest) as [out1 labs1] eqn:Hrest.
      injection Hrun as <- <-.
      apply orb_true_iff in Hhead as [Hfresh|Hsame].
      { apply bool_decide_eq_true in Hfresh. apply Hdom in Hfresh. congruence. }
      apply bool_decide_eq_true in Hsame. subst last.
      pose proof (Hlast _ eq_refl) as Hr. rewrite Hlab in Hr. inversion Hr; subst r.
      assert (Hsorted : StronglySorted le ((rank - 1)%nat :: ranks out1)).
      { apply (IH labs rank (lab :: seen) (Some lab) out1 labs1); try assumption.
        intros k. rewrite not_elem_of_cons, <- Hdom. split; [|tauto].
        intros Hk. split; [|exact Hk]. intros ->. congruence. }
      unfold ranks in *. simpl.
      constructor; [exact Hsorted|].
      constructor; [lia|]. now inversion Hsorted.
    + rewrite lookup_insert_eq in Hrun. simpl in Hrun.
      destruct (rank_loop config (<[lab:=rank]> labs) (S rank) rest)
        as [out1 labs1] eqn:Hrest.
      injection Hrun as <- <-.
      assert (Hsorted : StronglySorted le ((S rank - 1)%nat :: ranks out1)).
      { apply (IH (<[lab:=rank]> labs) (S rank) (lab :: seen) (Some lab) out1 labs1);
          try assumption.
        - intros k. rewrite not_elem_of_cons, <- Hdom, lookup_insert_None.
          split; intros [? ?]; split; congruence.
        - intros k r. rewrite lookup_insert.
          destruct (decide (lab = k)) as [_|_].
          + intros [= <-]. lia.
          + intros Hk. apply Hb in Hk. lia.
        - intros l [= <-]. rewrite lookup_insert_eq. f_equal. lia. }
      replace (S rank - 1)%nat with rank in Hsorted by lia.
      unfold ranks in *. simpl.
      constructor; [exact Hsorted|].
      inversion Hsorted as [|? ? _ Hall]; subst.
      constructor; [destruct last; lia|].
      eapply Forall_impl; [exact Hall|]. intros x Hx. simpl in Hx.
      destruct last; lia.
Qed.

(** C4. After [_assign_rankings] two applicants have the same rank number
    exactly when their lab keys (canonical institute, [" / "], canonical
    group) are equal; and for A (0.9, lab X/1), B (0.85, lab X/1) and
    C (0.7, lab Y/1) the ranks are 0, 0 and 1. *)
Theorem same_rank_iff_same_lab :
  (forall (config : Config (formula := formula)) (applications ranked : list Person) labs,
     _assign_rankings py_expr config applications = Ok (ranked, labs) ->
     forall p q, In p ranked -> In q ranked ->
       (Grader.rank p = Grader.rank q <-> lab_key config p = lab_key config q))
  /\ ranks_of (_assign_rankings interp (Scenario.config (EVar "python")) Scenario.cohort)
       = Some [0; 0; 1]%nat.
Proof.
  split; [|now vm_compute].
  intros config applications ranked labs Hrun p q Hp Hq.
  apply assign_rankings_loop in Hrun as [scored Hloop].
  assert (Hok : labs_ok (∅ : gmap string nat) 0).
  { split; intros k; intros; now rewrite lookup_empty in *. }
  destruct (rank_loop_labs _ _ _ _ _ _ Hok Hloop) as ([rank' [_ Hinj]] & _ & Hall).
  rewrite Forall_forall in Hall.
  apply list_elem_of_In in Hp, Hq.
  destruct (Hall p Hp) as (rp & Hrp & Hlp), (Hall q Hq) as (rq & Hrq & Hlq).
  rewrite Hrp, Hrq. split.
  - intros [= <-]. eapply Hinj; eassumption.
  - intros Heq. rewrite Heq in Hlp. congruence.
Qed.

(** C3 (amended). After [_assign_rankings], when in the sorted order the
    applicants of each lab stand next to each other (no lab key comes back
    after another one), the rank numbers never decrease along the sorted
    list. *)
Theorem ranks_non_decreasing_when_grouped
    (config : Config (formula := formula)) (applications ranked : list Person) labs :
  _assign_rankings py_expr config applications = Ok (ranked, labs) ->
  grouped (map (lab_key config) ranked) = true ->
  StronglySorted le (ranks ranked).
Proof.
  intros Hrun Hg.
  apply assign_rankings_loop in Hrun as [scored Hloop].
  rewrite (rank_loop_labels _ _ _ _ _ _ Hloop) in Hg.
  pose proof (rank_loop_grouped config (sorted_desc scored) ∅ 0%nat [] None ranked labs)
    as H.
  simpl in H.
  assert (Hs : StronglySorted le (0%nat :: ranks ranked)).
  { apply H; try assumption.
    - intros k. rewrite lookup_empty. split; [intros _; apply not_elem_of_nil | easy].
    - intros k r. now rewrite lookup_empty.
    - easy. }
  now inversion Hs.
Qed.

End Formula_facts.

(** *** The functions on small inputs *)

Example rating_key_strips : rating_key "  good (some text) / x " = "good".
Proof. reflexivity. Qed.

Example rating_key_keeps_case : rating_key "Expert/guru" = "Expert".
Proof. reflexivity. Qed.

Example get_rating_missing :
  get_rating "python" [("expert", Fin 1)] "novice (just started)" None
    = Raise (MissingRating "python" "novice").
Proof. reflexivity. Qed.

Example get_rating_fallback :
  get_rating "python" [("expert", Fin 1)] "novice" (Some (VStr "-")) = Ok (VStr "-").
Proof. reflexivity. Qed.

Example mean_of_one_grade : mean [Some (Fin 1); None] = Fin 1.
Proof. reflexivity. Qed.

Example mean_of_two_grades : mean [Some (Fin (-1)); Some (Fin 0)] = Fin (-1 # 2).
Proof. reflexivity. Qed.

Example mean_of_no_grade : mean [None; None] = float_nan.
Proof. reflexivity. Qed.

Example equiv_master_spelling :
  equiv_master_in [("MPI", ["Max Planck Institute"; "MPG"])] "max planck institute"
    = "MPI".
Proof. reflexivity. Qed.

Example equiv_master_unknown :
  equiv_master_in [("MPI", ["Max Planck Institute"; "MPG"])] " Caltech " = "Caltech".
Proof. reflexivity. Qed.

Example product_order :
  product [[1; 2]; [3; 4]]%nat = [[1; 3]; [1; 4]; [2; 3]; [2; 4]]%nat.
Proof. reflexivity. Qed.

Example min_keeps_first_nan :
  min_from (VNum NaN) [VNum (Fin 1)] = Ok (VNum NaN)
  /\ min_from (VNum (Fin 1)) [VNum NaN] = Ok (VNum (Fin 1)).
Proof. split; reflexivity. Qed.

(** *** The properties on the small cohort *)

Import Scenario.

Lemma get_rating_suffix_ignored_witness :
  get_rating "python" py_levels (" expert " ++ String "(" "10 years)") None
    = get_rating "python" py_levels (strip " expert ") None
  /\ get_rating "python" py_levels (" expert " ++ String "/" "guru") None
    = get_rating "python" py_levels (strip " expert ") None.
Proof.
  apply (get_rating_suffix_ignored "python" py_levels None " expert "
           "10 years)" "guru"); reflexivity.
Defined.

(** With an empty table of Python levels the bounds are (NaN, NaN) and not
    (+inf, -inf). *)
Lemma find_min_max_empty_not_infinite :
  find_min_max interp (EVar "python") [("competent", Fin 1)] [("user", Fin 1)] []
    <> Ok (VNum PInf, VNum NInf).
Proof. vm_compute. discriminate. Qed.

Lemma find_min_max_bounds_witness :
  find_min_max interp (EVar "python") [("competent", Fin 1)] [("user", Fin 1)] []
    = Ok (VNum float_nan, VNum float_nan)
  /\ exists lo hi,
       find_min_max interp (EVar "python") [("competent", Fin 1)] [("user", Fin 1)]
         py_levels = Ok (VNum lo, VNum hi)
       /\ In lo python_scores /\ In hi python_scores
       /\ Forall (fun x => f_le lo x = true /\ f_le x hi = true) python_scores.
Proof.
  split.
  - apply (find_min_max_bounds interp (EVar "python")
             [("competent", Fin 1)] [("user", Fin 1)] []).
    right; right; reflexivity.
  - apply (find_min_max_bounds interp (EVar "python")
             [("competent", Fin 1)] [("user", Fin 1)] py_levels);
      [discriminate | discriminate | discriminate | now vm_compute |].
    apply not_nan_forallb. now vm_compute.
Defined.

(** A successful evaluation leaves ["__builtins__"] in the caller's
    variables, and the formula [globals().pop('born', 0)] takes the
    variable [born] out of them. *)
Lemma eval_formula_changes_vars :
  snd (eval_formula interp (EVar "born") born_only) <> born_only
  /\ born_only !! "born" = Some (VNum (Fin 1980))
  /\ fst (eval_formula interp (EPop "born" (ENum 0)) born_only)
     = Ok (VNum (Fin 1980))
  /\ snd (eval_formula interp (EPop "born" (ENum 0)) born_only) !! "born" = None.
Proof.
  split; [|split; [|split]]; [|now vm_compute..].
  intros H. apply (f_equal (fun m => m !! "__builtins__")) in H.
  vm_compute in H. discriminate.
Qed.

Lemma eval_formula_vars_witness :
  snd (eval_formula interp (EVar "born") born_only) !! "born" = born_only !! "born"
  /\ snd (eval_formula interp (EPop "born" (ENum 0)) born_only) !! "born"
     = snd (interp (EPop "born" (ENum 0)) (eval_globals born_only)) !! "born"
  /\ snd (eval_formula interp (EVar "born") born_only)
       = <["__builtins__" := VBuiltins]> born_only
  /\ snd (eval_formula interp (EVar "email") born_only) = born_only.
Proof.
  split; [|split; [|split]].
  - apply (proj1 (eval_formula_vars interp (EVar "born") born_only) "born");
      [discriminate | reflexivity].
  - apply (proj1 (eval_formula_vars interp (EPop "born" (ENum 0)) born_only) "born").
    discriminate.
  - exact (proj2 (eval_formula_vars interp (EVar "born") born_only) eq_refl eq_refl).
  - exact (proj1 (proj2 (eval_formula_vars interp (EVar "email") born_only)
                    eq_refl eq_refl)).
Defined.

(** C1. The formula [gender == 'Female'] is 0 at every point of the
    search domain, so the bounds are (0, 0); for an applicant whose gender
    is ['Female'] the score is 1 and the assertion of [rank_person]
    fails. *)
Theorem rank_person_outside_bounds :
  find_min_max interp is_female [("competent", Fin 1)] [("user", Fin 1)] py_levels
    = Ok (VNum (Fin 0), VNum (Fin 0))
  /\ rank_person interp (applicant "A" "X" "1" "expert") is_female
       [("competent", Fin 1)] [("user", Fin 1)] py_levels
       [None; None] [None; None] (VNum (Fin 0)) (VNum (Fin 0))
     = Raise (AssertionError (VNum (Fin 0)) (Fin 1) (VNum (Fin 0)))
  /\ ranks_of (_assign_rankings interp (config is_female) cohort) = None.
Proof. now vm_compute. Qed.

(** With B between the two applicants of lab X/1 the ranks are 0, 1, 0. *)
Lemma ranks_decrease_when_lab_returns :
  exists ranked labs,
    _assign_rankings interp (config (EVar "python")) split_cohort = Ok (ranked, labs)
    /\ ~ StronglySorted le (ranks ranked).
Proof.
  assert (H : ranks_of (_assign_rankings interp (config (EVar "python")) split_cohort)
              = Some [0; 1; 0]%nat) by now vm_compute.
  destruct (_assign_rankings interp (config (EVar "python")) split_cohort)
    as [[ranked labs]|e]; [|discriminate H].
  exists ranked, labs. split; [reflexivity|].
  injection H as H. rewrite H. intros Hs.
  apply StronglySorted_inv in Hs as [Hs _].
  apply StronglySorted_inv in Hs as [_ Hall].
  apply Forall_inv in Hall. lia.
Qed.

Lemma ranked_cohort_run :
  _assign_rankings interp (config (EVar "python")) cohort = Ok ranked_cohort.
Proof. now vm_compute. Qed.

Lemma ranks_non_decreasing_when_grouped_witness :
  StronglySorted le (ranks (fst ranked_cohort)).
Proof.
  apply (ranks_non_decreasing_when_grouped interp (config (EVar "python")) cohort
           (fst ranked_cohort) (snd ranked_cohort)).
  - rewrite ranked_cohort_run. now destruct ranked_cohort.
  - now vm_compute.
Defined.

Lemma same_rank_iff_same_lab_witness :
  Grader.rank ranked_A = Grader.rank ranked_B
  <-> lab_key (config (EVar "python")) ranked_A
      = lab_key (config (EVar "python")) ranked_B.
Proof.
  apply (proj1 (same_rank_iff_same_lab interp) (config (EVar "python")) cohort
           (fst ranked_cohort) (snd ranked_cohort)).
  - rewrite ranked_cohort_run. now destruct ranked_cohort.
  - vm_compute. left. reflexivity.
  - vm_compute. right. left. reflexivity.
Defined.

End GraderFacts.

Module CreateGroupsFacts.

Import CreateGroups.

Local Open Scope R_scope.

(** *** Exchanging two rows *)

Lemma swap_rows_length idx (data data' : matrix) :
  swap_rows idx data = Ok data' -> length data' = length data.
Proof.
  unfold swap_rows. destruct (data !! idx.1), (data !! idx.2); try easy.
  intros [= <-]. now rewrite !length_insert.
Qed.

Lemma swap_rows_lookup idx (data data' : matrix) :
  swap_rows idx data = Ok data' ->
  forall i, data' !! i =
    if decide (i = idx.2) then data !! idx.1
    else if decide (i = idx.1) then data !! idx.2
    else data !! i.
Proof.
  unfold swap_rows.
  destruct (data !! idx.1) as [ra|] eqn:Ha, (data !! idx.2) as [rb|] eqn:Hb;
    try easy.
  intros [= <-] i.
  apply lookup_lt_Some in Ha as Hla. apply lookup_lt_Some in Hb as Hlb.
  destruct (decide (i = idx.2)) as [-> |Hib].
  - rewrite list_lookup_insert_eq; [easy | now rewrite length_insert].
  - rewrite list_lookup_insert_ne by congruence.
    destruct (decide (i = idx.1)) as [-> |Hia].
    + now rewrite list_lookup_insert_eq.
    + now rewrite list_lookup_insert_ne by congruence.
Qed.

Lemma swap_rows_in_range idx (data : matrix) :
  (idx.1 < length data)%nat -> (idx.2 < length data)%nat ->
  exists data', swap_rows idx data = Ok data'.
Proof.
  intros Ha Hb. unfold swap_rows.
  destruct (lookup_lt_is_Some_2 _ _ Ha) as [ra ->].
  destruct (lookup_lt_is_Some_2 _ _ Hb) as [rb ->]. eauto.
Qed.

Lemma transpose_involutive a b i : transpose a b (transpose a b i) = i.
Proof. unfold transpose. repeat case_decide; congruence. Qed.

Lemma swap_rows_permutation idx (data data' : matrix) :
  swap_rows idx data = Ok data' -> data ≡ₚ data'.
Proof.
  intros Hswap. symmetry. apply Permutation_inj. split.
  - now apply (swap_rows_length idx).
  - exists (transpose idx.1 idx.2). split.
    + intros i j Hij. apply (f_equal (transpose idx.1 idx.2)) in Hij.
      now rewrite !transpose_involutive in Hij.
    + intros i. rewrite (swap_rows_lookup _ _ _ Hswap i). unfold transpose.
      repeat case_decide; congruence.
Qed.

(** Exchanging the same two rows again gives the array back. *)
Lemma swap_rows_twice idx (data data' : matrix) :
  swap_rows idx data = Ok data' -> swap_rows idx data' = Ok data.
Proof.
  intros Hswap.
  pose proof (swap_rows_lookup _ _ _ Hswap) as Hl.
  assert (Ha : (idx.1 < length data')%nat /\ (idx.2 < length data')%nat).
  { rewrite (swap_rows_length _ _ _ Hswap). unfold swap_rows in Hswap.
    destruct (data !! idx.1) eqn:Ha, (data !! idx.2) eqn:Hb; try easy.
    split; eapply lookup_lt_Some; eassumption. }
  destruct (swap_rows_in_range idx data' (proj1 Ha) (proj2 Ha)) as [data'' Hback].
  rewrite Hback. f_equal. apply list_eq. intros i.
  rewrite (swap_rows_lookup _ _ _ Hback i), !Hl.
  repeat case_decide; congruence.
Qed.

Example swap_rows_0_2 :
  swap_rows (0, 2)%nat [[1]; [2]; [3]] = Ok [[3]; [2]; [1]].
Proof. reflexivity. Qed.

Example swap_rows_out_of_range :
  swap_rows (0, 3)%nat [[1]; [2]; [3]] = Raise IndexError.
Proof. reflexivity. Qed.

Example gslice_second_group : gslice 1 2 [10; 11; 12; 13; 14]%nat = [12; 13]%nat.
Proof. reflexivity. Qed.

Example trial_seed_wraps : trial_seed (2 ^ 63) 2 = 0%Z.
Proof. reflexivity. Qed.

(** *** The optimizer keeps the rows *)

Section Optimizer_facts.

Variable NSTUDENTS : nat.
Context {G : Type}.
Variable randint : nat -> G -> (nat * nat) * G.
Variable rand : G -> R * G.

Lemma optimize_keeps_rows fuel K energy p (rep : nat) :
  forall (data : matrix) (weights : list R) (g : G) data' weights' g',
  optimize NSTUDENTS randint rand fuel data K rep energy weights p g
    = Ok (data', weights', g') ->
  data ≡ₚ data'.
Proof.
  induction rep as [|rep IH]; intros data weights g data' weights' g' Hrun;
    simpl in Hrun.
  - now injection Hrun as <- _ _.
  - destruct (randint NSTUDENTS g) as [idx g1].
    destruct (resample NSTUDENTS randint fuel K idx g1) as [[idx' g2]|];
      [|discriminate]. simpl in Hrun.
    destruct (energy data K weights) as [[E1 w1]|]; [|discriminate].
    simpl in Hrun.
    destruct (swap_rows idx' data) as [data2|] eqn:Hswap; [|discriminate].
    simpl in Hrun.
    destruct (energy data2 K w1) as [[E2 w2]|]; [|discriminate].
    simpl in Hrun.
    pose proof (swap_rows_permutation _ _ _ Hswap) as Hp.
    assert (Hback : forall g3, 
      (do data3 <- swap_rows idx' data2;
       optimize NSTUDENTS randint rand fuel data3 K rep energy w2 p g3)
        = Ok (data', weights', g') -> data ≡ₚ data').
    { intros g3 H. rewrite (swap_rows_twice _ _ _ Hswap) in H. simpl in H.
      now apply IH in H. }
    destruct (Rlt_dec E1 E2); [now apply Hback in Hrun|].
    destruct (Rlt_dec 0 p).
    + destruct (rand g2) as [u g3].
      destruct (Rlt_dec u p); [now apply Hback in Hrun|].
      apply IH in Hrun. now rewrite Hp.
    + apply IH in Hrun. now rewrite Hp.
Qed.

Lemma resample_in_range fuel K (n : nat) :
  (forall g, ((randint NSTUDENTS g).1.1 < n)%nat /\ ((randint NSTUDENTS g).1.2 < n)%nat) ->
  forall idx g idx' g',
  resample NSTUDENTS randint fuel K idx g = Ok (idx', g') ->
  (idx.1 < n)%nat /\ (idx.2 < n)%nat -> (idx'.1 < n)%nat /\ (idx'.2 < n)%nat.
Proof.
  intros Hrange. induction fuel as [|fuel IH]; intros idx g idx' g' Hrun Hidx;
    simpl in Hrun; destruct (idx.1 / K =? idx.2 / K)%nat.
  - discriminate.
  - now injection Hrun as <- _.
  - specialize (Hrange g). destruct (randint NSTUDENTS g) as [idx1 g1].
    eapply IH; [exact Hrun | exact Hrange].
  - now injection Hrun as <- _.
Qed.

(** [optimize] returns when the energy can be computed on every
    rearrangement of the rows, the generator draws row numbers of the
    array, and every [while] loop finds its pair within the fuel. *)
Lemma optimize_returns fuel K energy p (data0 : matrix) (n : nat) :
  (forall d w, d ≡ₚ data0 -> length w = n ->
     exists E w', energy d K w = Ok (E, w') /\ length w' = n) ->
  (forall g, ((randint NSTUDENTS g).1.1 < length data0)%nat
             /\ ((randint NSTUDENTS g).1.2 < length data0)%nat) ->
  (forall idx g, exists r, resample NSTUDENTS randint fuel K idx g = Ok r) ->
  forall (rep : nat) (data : matrix) (weights : list R) (g : G),
  data ≡ₚ data0 -> length weights = n ->
  exists out, optimize NSTUDENTS randint rand fuel data K rep energy weights p g = Ok out.
Proof.
  intros Hen Hrange Hres.
  induction rep as [|rep IH]; intros data weights g Hp Hw; simpl; [eauto|].
  pose proof (Hrange g) as Hidx.
  destruct (randint NSTUDENTS g) as [idx g1].
  destruct (Hres idx g1) as [[idx' g2] Hr]. rewrite Hr. simpl.
  pose proof (resample_in_range _ _ _ Hrange _ _ _ _ Hr Hidx) as [Ha Hb].
  destruct (Hen data weights Hp Hw) as (E1 & w1 & -> & Hw1). simpl.
  rewrite <- (Permutation_length Hp) in Ha, Hb.
  destruct (swap_rows_in_range idx' data Ha Hb) as [data2 Hswap].
  rewrite Hswap. simpl.
  assert (Hp2 : data2 ≡ₚ data0).
  { now rewrite <- (swap_rows_permutation _ _ _ Hswap). }
  destruct (Hen data2 w1 Hp2 Hw1) as (E2 & w2 & -> & Hw2). simpl.
  rewrite (swap_rows_twice _ _ _ Hswap). simpl.
  destruct (Rlt_dec E1 E2); [now apply IH|].
  destruct (Rlt_dec 0 p); [|now apply IH].
  destruct (rand g2) as [u g3]. destruct (Rlt_dec u p); now apply IH.
Qed.

End Optimizer_facts.

(** C10. For every matrix, group size, number of proposals, energy
    function, weights, acceptance probability and generator, the matrix
    that [optimize] leaves when it returns is a permutation of the rows of
    the matrix it was given. *)
Theorem optimize_row_permutation (NSTUDENTS : nat) {G : Type}
    (randint : nat -> G -> (nat * nat) * G) (rand : G -> R * G)
    (fuel : nat) (data : matrix) (K rep : nat)
    (energy : matrix -> nat -> list R -> result (R * list R))
    (weights : list R) (p : R) (g : G) data' weights' g' :
  optimize NSTUDENTS randint rand fuel data K rep energy weights p g
    = Ok (data', weights', g') ->
  data ≡ₚ data'.
Proof. apply optimize_keeps_rows. Qed.

(** *** The energy *)

Lemma getitem_nth (a : list R) (j : nat) x : getitem a j = Ok x -> x = nth j a 0.
Proof.
  unfold getitem. destruct (a !! j) as [y|] eqn:E; [|easy].
  intros [= <-]. symmetry. now apply nth_lookup_Some.
Qed.

Lemma getitem_in_range (a : list R) (j : nat) :
  (j < length a)%nat -> getitem a j = Ok (nth j a 0).
Proof.
  intros H. unfold getitem.
  destruct (lookup_lt_is_Some_2 _ _ H) as [y Hy]. rewrite Hy.
  f_equal. symmetry. now apply nth_lookup_Some.
Qed.

Lemma column_rows (data : matrix) (j : nat) col :
  column data j = Ok col -> col = map (fun row => nth j row 0) data.
Proof. unfold column. destruct (j <? shape1 data)%nat; now intros [= <-]. Qed.

Lemma length_normalized w : length (normalized w) = length w.
Proof. unfold normalized. apply length_map. Qed.

Lemma np_sum_scale c (a : list R) : np_sum (map (fun x => x * c) a) = np_sum a * c.
Proof.
  unfold np_sum. induction a as [|x a IH]; simpl; [ring|]. rewrite IH. ring.
Qed.

Lemma np_sum_normalized w : np_sum w <> 0 -> np_sum (normalized w) = 1.
Proof. intros H. unfold normalized. rewrite np_sum_scale. now field. Qed.

(** Normalizing weights that are normalized changes nothing. *)
Lemma normalized_idem w : np_sum w <> 0 -> normalized (normalized w) = normalized w.
Proof.
  intros H. unfold normalized at 1. rewrite (np_sum_normalized w H).
  rewrite <- (map_id (normalized w)) at 2. apply map_ext.
  intros x. field.
Qed.

Section Energy_facts.

Variable NSTUDENTS GSIZE : nat.
Variable rated : matrix.

Local Abbreviation energy := (energy NSTUDENTS GSIZE rated).
Local Abbreviation energy_value := (energy_value NSTUDENTS GSIZE).

Lemma energy_inv_any (rated' : matrix) (data : matrix) (K : nat)
    (weights : list R) E w' :
  CreateGroups.energy NSTUDENTS GSIZE rated' data K weights = Ok (E, w') ->
  E = energy_value data K weights /\ w' = normalized weights.
Proof.
  unfold CreateGroups.energy, CreateGroups.energy_value.
  destruct data as [|row data]; [easy|].
  set (d := row :: data).
  destruct (negb _); [easy|].
  repeat match goal with
  | |- context [getitem ?a ?j] =>
      let x := fresh "x" in let Hx := fresh "Hx" in
      destruct (getitem a j) as [x|] eqn:Hx; [apply getitem_nth in Hx|easy];
      simpl
  | |- context [column ?a ?j] =>
      let c := fresh "c" in let Hc := fresh "Hc" in
      destruct (column a j) as [c|] eqn:Hc; [apply column_rows in Hc|easy];
      simpl
  end.
  intros [= <- <-]. subst. split; reflexivity.
Qed.

Lemma energy_inv (data : matrix) (K : nat) (weights : list R) E w' :
  energy data K weights = Ok (E, w') ->
  E = energy_value data K weights /\ w' = normalized weights.
Proof. apply energy_inv_any. Qed.

Lemma energy_ok (data : matrix) (K : nat) (weights : list R) :
  data <> [] ->
  Forall (fun row => length row = shape1 rated) data ->
  (5 <= shape1 rated)%nat -> (5 <= length weights)%nat ->
  energy data K weights = Ok (energy_value data K weights, normalized weights).
Proof.
  intros Hne Hrows Hcols Hw.
  unfold CreateGroups.energy, CreateGroups.energy_value.
  destruct data as [|row data]; [easy|].
  set (d := row :: data).
  assert (Hshape : shape1 d = shape1 rated) by now inversion Hrows.
  assert (Htargets : length (mean_axis0 rated) = shape1 rated).
  { unfold mean_axis0. now rewrite length_map, length_seq. }
  rewrite Hshape, Htargets, Nat.eqb_refl. simpl negb. cbv iota.
  unfold column. rewrite Hshape.
  assert (Hj : forall j, (j < 5)%nat -> (j <? shape1 rated)%nat = true).
  { intros j Hlt. apply Nat.ltb_lt. lia. }
  rewrite !Hj by lia.
  rewrite !(getitem_in_range (normalized weights))
    by (rewrite length_normalized; lia).
  rewrite !(getitem_in_range (mean_axis0 rated)) by lia.
  reflexivity.
Qed.

(** The energy only reads the normalized weights. *)
Lemma energy_normalized (data : matrix) (K : nat) (weights : list R) :
  np_sum weights <> 0 ->
  energy data K (normalized weights) = energy data K weights.
Proof.
  intros H. unfold CreateGroups.energy. now rewrite (normalized_idem _ H).
Qed.

Lemma energy_value_normalized (data : matrix) (K : nat) (weights : list R) :
  np_sum weights <> 0 ->
  energy_value data K (normalized weights) = energy_value data K weights.
Proof.
  intros H. unfold CreateGroups.energy_value. now rewrite (normalized_idem _ H).
Qed.

(** The means of a column over the slices are the means of that feature
    over the groups. *)
Lemma group_means_of_column (data : matrix) (K j : nat) :
  map (group_mean j) (groups K data)
  = map (fun i => np_mean (gslice i K (map (fun row => nth j row 0) data)))
        (seq 0 (length data / K)).
Proof.
  unfold groups. rewrite map_map. apply map_ext. intros i.
  unfold group_mean, gslice. now rewrite <- firstn_map, <- skipn_map.
Qed.

Lemma energy_value_spec (data : matrix) (K : nat) (weights : list R) :
  K = GSIZE -> length data = NSTUDENTS -> length weights = 5%nat ->
  energy_value data K weights = energy_spec data K weights.
Proof.
  intros -> Hrows Hw.
  unfold CreateGroups.energy_value, energy_spec, energy_mudeviation, NGROUPS.
  rewrite Hw, <- Hrows.
  change (seq 0 5) with [0; 1; 2; 3; 4]%nat. cbn [map].
  rewrite !group_means_of_column.
  unfold normalized.
  destruct weights as [|w0 [|w1 [|w2 [|w3 [|w4 [|]]]]]]; try discriminate.
  set (S := np_sum [w0; w1; w2; w3; w4]).
  simpl nth. unfold np_sum at 1. simpl foldr.
  unfold Rdiv. ring.
Qed.

(** C2. When [energy] is called as [main] calls it (group size [K], a
    matrix of [NSTUDENTS] rows, five weights), the energy it returns is
    the sum over the five features of the weight of the feature, divided
    by the sum of the weights, times the standard deviation across the
    groups of the group means of the feature.  It does not depend on the
    targets computed from [rated], and two matrices with the same group
    means have the same energy whatever the spread inside the groups. *)
Theorem energy_is_spread_of_group_means (data : matrix) (K : nat)
    (weights : list R) E w' :
  K = GSIZE -> length data = NSTUDENTS -> length weights = 5%nat ->
  energy data K weights = Ok (E, w') ->
  E = energy_spec data K weights
  /\ w' = normalized weights
  /\ (forall rated2 E2 w2,
        CreateGroups.energy NSTUDENTS GSIZE rated2 data K weights = Ok (E2, w2) ->
        E2 = E)
  /\ (forall data2 E2 w2,
        length data2 = length data ->
        (forall j, map (group_mean j) (groups K data2)
                   = map (group_mean j) (groups K data)) ->
        energy data2 K weights = Ok (E2, w2) -> E2 = E).
Proof.
  intros HK Hrows Hw Hrun.
  apply energy_inv in Hrun as [-> ->].
  rewrite (energy_value_spec data K weights HK Hrows Hw).
  repeat split.
  - intros rated2 E2 w2 H2. 
    apply (energy_inv_any rated2) in H2 as [-> _].
    now apply energy_value_spec.
  - intros data2 E2 w2 Hlen Hmeans H2.
    apply energy_inv in H2 as [-> _].
    rewrite (energy_value_spec data2 K weights HK) by congruence.
    unfold energy_spec. apply f_equal, map_ext. intros j. now rewrite Hmeans.
Qed.

End Energy_facts.

(** *** The trials *)

Section Trial_facts.

Variable NSTUDENTS GSIZE TRIALS REPETITIONS : nat.
Context {G : Type}.
Variable np_random_seed : Z -> G.
Variable randint : nat -> G -> (nat * nat) * G.
Variable rand : G -> R * G.
Variable permutation : matrix -> G -> matrix * G.
Variable sha512_words : string -> list Z.
Variable rated : matrix.
Variable np_argsort : list R -> list nat.

Local Abbreviation energy := (energy NSTUDENTS GSIZE rated).
Local Abbreviation energy_value := (energy_value NSTUDENTS GSIZE).
Local Abbreviation optimize := (optimize NSTUDENTS randint rand).
Local Abbreviation trial :=
  (trial NSTUDENTS GSIZE REPETITIONS np_random_seed randint rand permutation rated).
Local Abbreviation trials :=
  (trials NSTUDENTS GSIZE REPETITIONS np_random_seed randint rand permutation rated).
Local Abbreviation isolated_trials :=
  (isolated_trials NSTUDENTS GSIZE REPETITIONS np_random_seed randint rand
     permutation rated).
Local Abbreviation main :=
  (main NSTUDENTS GSIZE TRIALS REPETITIONS np_random_seed randint rand permutation
     sha512_words rated).

(** With [p = 0] and normalized weights, a run of [optimize] keeps the
    weights and does not raise the energy. *)
Lemma optimize_energy_le fuel K (rep : nat) :
  forall (data : matrix) (w : list R) (g : G) data' w' g',
  normalized w = w ->
  optimize fuel data K rep energy w 0 g = Ok (data', w', g') ->
  w' = w /\ energy_value data' K w <= energy_value data K w.
Proof.
  induction rep as [|rep IH]; intros data w g data' w' g' Hw Hrun; simpl in Hrun.
  - injection Hrun as <- <- _. split; [reflexivity | lra].
  - destruct (randint NSTUDENTS g) as [idx g1].
    destruct (resample NSTUDENTS randint fuel K idx g1) as [[idx' g2]|];
      [|discriminate]. simpl in Hrun.
    destruct (energy data K w) as [[E1 w1]|] eqn:He1; [|discriminate].
    simpl in Hrun. apply energy_inv in He1 as [-> ->]. rewrite Hw in Hrun.
    destruct (swap_rows idx' data) as [data2|] eqn:Hswap; [|discriminate].
    simpl in Hrun.
    destruct (energy data2 K w) as [[E2 w2]|] eqn:He2; [|discriminate].
    simpl in Hrun. apply energy_inv in He2 as [-> ->]. rewrite Hw in Hrun.
    destruct (Rlt_dec (energy_value data K w) (energy_value data2 K w)) as [Hlt|Hge].
    + rewrite (swap_rows_twice _ _ _ Hswap) in Hrun. simpl in Hrun.
      now apply IH in Hrun.
    + destruct (Rlt_dec 0 0) as [H0|_]; [lra|].
      apply IH in Hrun as [-> Hle]; [|exact Hw]. split; [reflexivity | lra].
Qed.

(** C6. With [p = 0], for weights whose sum is not zero: the energy that
    [energy] computes on the matrix that [optimize] leaves is not greater
    than the energy it computed on the matrix before the call. *)
Theorem optimize_never_raises_energy fuel (data : matrix) (K rep : nat)
    (w0 w : list R) (g : G) E0 data' w' g' E1 w'' :
  np_sum w0 <> 0 ->
  energy data K w0 = Ok (E0, w) ->
  optimize fuel data K rep energy w 0 g = Ok (data', w', g') ->
  energy data' K w' = Ok (E1, w'') ->
  E1 <= E0.
Proof.
  intros Hsum He0 Hrun He1.
  apply energy_inv in He0 as [-> ->].
  apply optimize_energy_le in Hrun as [-> Hle]; [|now apply normalized_idem].
  apply energy_inv in He1 as [-> _].
  now rewrite (energy_value_normalized _ _ data K w0 Hsum) in Hle.
Qed.

(** A trial does not read the generator state it is started in. *)
Lemma trial_any_state fuel rs seed w (g g' : G) :
  trial fuel rs seed w g = trial fuel rs seed w g'.
Proof. reflexivity. Qed.

Lemma trial_normalized fuel rs seed w (g : G) :
  np_sum w <> 0 ->
  trial fuel rs seed (normalized w) g = trial fuel rs seed w g.
Proof.
  intros H. unfold CreateGroups.trial.
  destruct (permutation rated _) as [data g1].
  now rewrite (energy_normalized _ _ _ data GSIZE w H).
Qed.

Lemma trial_weights fuel rs seed w (g : G) E0 E data w' g' :
  np_sum w <> 0 ->
  trial fuel rs seed w g = Ok (E0, E, data, w', g') ->
  w' = normalized w.
Proof.
  intros H. unfold CreateGroups.trial.
  destruct (permutation rated _) as [data0 g1].
  destruct (energy data0 GSIZE w) as [[e0 w1]|] eqn:He0; [|discriminate].
  simpl. apply energy_inv in He0 as [_ ->].
  destruct (optimize fuel data0 GSIZE REPETITIONS energy (normalized w) 0 g1)
    as [[[d w2] g2]|] eqn:Hopt; [|discriminate].
  simpl. apply optimize_energy_le in Hopt as [-> _]; [|now apply normalized_idem].
  destruct (energy d GSIZE (normalized w)) as [[e w3]|] eqn:He; [|discriminate].
  simpl. apply energy_inv in He as [_ ->].
  intros [= _ _ _ <- _]. now apply normalized_idem.
Qed.

Lemma np_sum_ones : np_sum [1; 1; 1; 1; 1] <> 0.
Proof. unfold np_sum. simpl. lra. Qed.

(** Whatever weights the earlier trials left, as long as they normalize
    to the weights of [main], the loop collects what the trials collect
    when each is run on its own. *)
Lemma trials_isolated fuel rs (seeds : list Z) :
  forall acc w (g g' : G),
  np_sum w <> 0 -> normalized w = normalized [1; 1; 1; 1; 1] ->
  collected (trials fuel rs seeds acc w g) = isolated_trials fuel rs seeds acc g'.
Proof.
  induction seeds as [|seed seeds IH]; intros acc w g g' Hsum Hw; simpl;
    [reflexivity|].
  assert (Ht : trial fuel rs seed w g = trial fuel rs seed [1; 1; 1; 1; 1] g').
  { rewrite <- (trial_normalized fuel rs seed w g Hsum), Hw.
    rewrite (trial_normalized fuel rs seed _ g np_sum_ones).
    apply trial_any_state. }
  rewrite Ht.
  destruct (trial fuel rs seed [1; 1; 1; 1; 1] g')
    as [[[[[E0 E] data] w'] g1]|e] eqn:Hrun; simpl; [|reflexivity].
  apply trial_weights in Hrun; [|exact np_sum_ones]. subst w'.
  apply IH.
  - rewrite (np_sum_normalized _ np_sum_ones). lra.
  - apply normalized_idem, np_sum_ones.
Qed.

(** C7. [main] computes the same lists of energies and of partitions,
    and the same optimal partition, from every state of the random
    generator it is started in: they are determined by the matrix, the
    group size, the numbers of trials and of repetitions and the seed
    text.  Trial number [i] runs from the generator seeded with
    [trial_seed (random_seed_of seed_text) i], and the lists are those of
    the trials each run on its own from that seed. *)
Theorem main_reproducible fuel seed_text (g g' : G) :
  main fuel seed_text g = main fuel seed_text g'
  /\ (do t <- collected (main fuel seed_text g); optimal np_argsort t)
     = (do t <- collected (main fuel seed_text g'); optimal np_argsort t)
  /\ collected (main fuel seed_text g)
     = isolated_trials fuel (random_seed_of TRIALS sha512_words seed_text)
         (map Z.of_nat (seq 1 TRIALS))
         {| initial_E_seeds := []; E_seeds := []; data_seeds := [] |} g'.
Proof.
  split; [reflexivity|]. split; [reflexivity|].
  unfold CreateGroups.main. apply trials_isolated; [exact np_sum_ones | reflexivity].
Qed.

End Trial_facts.

(** *** A small run *)

Import Demo.

Lemma students_rows (d : matrix) :
  d ≡ₚ students -> d <> [] /\ Forall (fun row => length row = shape1 students) d.
Proof.
  intros Hp. split.
  - intros ->. now apply Permutation_nil_l in Hp.
  - rewrite Hp. now repeat constructor.
Qed.

Lemma students_energy (d : matrix) (w : list R) :
  d ≡ₚ students -> length w = 5%nat ->
  energy 4 2 students d 2 w = Ok (energy_value 4 2 d 2 w, normalized w).
Proof.
  intros Hp Hw. destruct (students_rows d Hp) as [Hne Hrows].
  apply energy_ok; [exact Hne | exact Hrows | unfold shape1, students; simpl; lia | lia].
Qed.

Lemma students_optimize (rep : nat) (w : list R) :
  length w = 5%nat ->
  exists data' w' g',
    optimize 4 draw_0_2 draw_zero 1 students 2 rep (energy 4 2 students) w 0 tt
      = Ok (data', w', g').
Proof.
  intros Hw.
  destruct (optimize_returns 4 draw_0_2 draw_zero 1 2 (energy 4 2 students) 0
              students 5) with (rep := rep) (data := students) (weights := w) (g := tt)
    as [[[data' w'] g'] Hrun]; eauto.
  - intros d v Hp Hv. rewrite (students_energy d v Hp Hv).
    eexists _, _. split; [reflexivity|]. now rewrite length_normalized.
  - intros g. simpl. lia.
  - intros idx g. simpl. destruct (_ =? _)%nat; eauto.
Qed.

Lemma students_trial rs seed (w : list R) (g : unit) :
  length w = 5%nat -> np_sum w <> 0 ->
  exists E0 E data w' g',
    trial 4 2 3 seed_unit draw_0_2 draw_zero keep_order students 1 rs seed w g
      = Ok (E0, E, data, w', g')
    /\ length w' = 5%nat /\ np_sum w' <> 0.
Proof.
  intros Hw Hsum. unfold trial, keep_order, seed_unit.
  rewrite (students_energy students w (reflexivity _) Hw).
  cbn -[optimize energy].
  assert (Hn : length (normalized w) = 5%nat) by now rewrite length_normalized.
  destruct (students_optimize 3 (normalized w) Hn) as (data' & w' & g' & Hrun).
  rewrite Hrun. cbn -[optimize energy].
  pose proof (optimize_keeps_rows _ _ _ _ _ _ _ _ _ _ _ _ _ _ Hrun) as Hp.
  apply optimize_energy_le in Hrun as [-> _]; [|now apply normalized_idem].
  rewrite (students_energy data' (normalized w) (symmetry Hp) Hn).
  cbn -[optimize energy].
  eexists _, _, _, _, _. split; [reflexivity|].
  rewrite (normalized_idem w Hsum). split; [exact Hn|].
  rewrite (np_sum_normalized w Hsum). lra.
Qed.

Lemma students_trials rs (seeds : list Z) :
  forall acc (w : list R) (g : unit),
  length w = 5%nat -> np_sum w <> 0 ->
  exists out,
    trials 4 2 3 seed_unit draw_0_2 draw_zero keep_order students 1 rs seeds acc w g
      = Ok out.
Proof.
  induction seeds as [|seed seeds IH]; intros acc w g Hw Hsum; [simpl; eauto|].
  destruct (students_trial rs seed w g Hw Hsum)
    as (E0 & E & data & w' & g' & Hrun & Hw' & Hsum').
  cbn -[trial]. rewrite Hrun. cbn -[trial]. now apply IH.
Qed.

(** [main] returns on the four students: two trials of three proposals. *)
Lemma main_returns_on_students :
  exists out,
    main 4 2 2 3 seed_unit draw_0_2 draw_zero keep_order no_words students
      1 "2016" tt = Ok out.
Proof. unfold main. apply students_trials; [reflexivity | exact np_sum_ones]. Qed.

Lemma energy_is_spread_of_group_means_witness :
  exists E w',
    energy 4 2 students students 2 ones = Ok (E, w')
    /\ E = energy_spec students 2 ones /\ w' = normalized ones.
Proof.
  exists (energy_value 4 2 students 2 ones), (normalized ones).
  assert (Hrun : energy 4 2 students students 2 ones
                 = Ok (energy_value 4 2 students 2 ones, normalized ones))
    by now apply students_energy.
  split; [exact Hrun|].
  destruct (energy_is_spread_of_group_means 4 2 students students 2 ones _ _
              eq_refl eq_refl eq_refl Hrun) as (H1 & H2 & _).
  split; assumption.
Defined.

Lemma optimize_row_permutation_witness :
  exists data' w' g',
    optimize 4 draw_0_2 draw_zero 1 students 2 3 (energy 4 2 students) ones 0 tt
      = Ok (data', w', g')
    /\ students ≡ₚ data'.
Proof.
  destruct (students_optimize 3 ones eq_refl) as (data' & w' & g' & Hrun).
  exists data', w', g'. split; [exact Hrun|].
  exact (optimize_row_permutation 4 draw_0_2 draw_zero 1 students 2 3
           (energy 4 2 students) ones 0 tt data' w' g' Hrun).
Defined.

Lemma optimize_never_raises_energy_witness :
  exists E0 w data' w' g' E1 w'',
    energy 4 2 students students 2 ones = Ok (E0, w)
    /\ optimize 4 draw_0_2 draw_zero 1 students 2 3 (energy 4 2 students) w 0 tt
       = Ok (data', w', g')
    /\ energy 4 2 students data' 2 w' = Ok (E1, w'')
    /\ E1 <= E0.
Proof.
  pose proof (students_energy students ones (reflexivity _) eq_refl) as He0.
  destruct (students_optimize 3 (normalized ones) eq_refl)
    as (data' & w' & g' & Hrun).
  pose proof (optimize_keeps_rows _ _ _ _ _ _ _ _ _ _ _ _ _ _ Hrun) as Hp.
  assert (Hw' : length w' = 5%nat).
  { apply optimize_energy_le in Hrun as [-> _]; [reflexivity|].
    apply normalized_idem, np_sum_ones. }
  pose proof (students_energy data' w' (symmetry Hp) Hw') as He1.
  exists (energy_value 4 2 students 2 ones), (normalized ones), data', w', g',
    (energy_value 4 2 data' 2 w'), (normalized w').
  split; [exact He0|]. split; [exact Hrun|]. split; [exact He1|].
  exact (optimize_never_raises_energy 4 2 draw_0_2 draw_zero students 1 students 2 3
           ones _ tt _ data' w' g' _ _ np_sum_ones He0 Hrun He1).
Defined.

End CreateGroupsFacts.

(** ** More about grader.py *)

Module GraderMoreFacts.

Import PyStr PyStrFacts Grader GraderFacts GraderMore Scenario.

(** *** Scores and ratings *)

Lemma f_le_nan_l x : f_le NaN x = false.
Proof. reflexivity. Qed.

Lemma f_le_nan_r x : f_le x NaN = false.
Proof. now destruct x. Qed.

(** X1. A score that [rank_person] returns is the NaN or lies between the
    two bounds it was called with; when one of the bounds is the NaN (the
    bounds of an empty search domain) the only score it returns is the
    NaN. *)
Theorem rank_person_score_in_bounds {formula : Type}
    (py_expr : formula -> gmap string value
               -> outcome pyerr value * gmap string value)
    person (f : formula) pr osr pyr motivation_scores cv_scores minsc maxsc sc :
  rank_person py_expr person f pr osr pyr motivation_scores cv_scores minsc maxsc
    = Ok sc ->
  (isnan sc = true
   \/ (v_le minsc (VNum sc) = Ok true /\ v_le (VNum sc) maxsc = Ok true))
  /\ (minsc = VNum float_nan \/ maxsc = VNum float_nan -> isnan sc = true).
Proof.
  intros Hrun.
  pose proof (rank_person_within_bounds _ _ _ _ _ _ _ _ _ _ _ Hrun) as H.
  split; [exact H|].
  intros Hnan. destruct H as [H|[Hlo Hhi]]; [exact H|].
  destruct Hnan as [-> | ->]; simpl in Hlo, Hhi.
  - discriminate.
  - rewrite f_le_nan_r in Hhi. discriminate.
Qed.

Lemma rank_person_score_in_bounds_witness :
  (isnan (Fin (9 # 10)) = true
   \/ (v_le (VNum (Fin (7 # 10))) (VNum (Fin (9 # 10))) = Ok true
       /\ v_le (VNum (Fin (9 # 10))) (VNum (Fin (9 # 10))) = Ok true))
  /\ (VNum (Fin (7 # 10)) = VNum float_nan \/ VNum (Fin (9 # 10)) = VNum float_nan ->
      isnan (Fin (9 # 10)) = true).
Proof.
  apply (rank_person_score_in_bounds interp (applicant "A" "X" "1" "expert")
           (EVar "python") [("competent", Fin 1)] [("user", Fin 1)] py_levels
           [None; None] [None; None]).
  now vm_compute.
Defined.

Lemma lookup_setitem_eq {A} key (v : A) (d : table A) :
  lookup_key key (setitem key v d) = Some v.
Proof.
  induction d as [|[k x] d IH]; simpl.
  - now rewrite String.eqb_refl.
  - destruct (String.eqb k key) eqn:E; simpl; rewrite E; [reflexivity | exact IH].
Qed.

Lemma lookup_setitem_ne {A} key key' (v : A) (d : table A) :
  key <> key' -> lookup_key key' (setitem key v d) = lookup_key key' d.
Proof.
  intros Hne. induction d as [|[k x] d IH]; simpl.
  - destruct (String.eqb key key') eqn:E; [|reflexivity].
    apply String.eqb_eq in E. contradiction.
  - destruct (String.eqb k key) eqn:E; simpl.
    + apply String.eqb_eq in E. subst k.
      destruct (String.eqb key key') eqn:E'; [|reflexivity].
      apply String.eqb_eq in E'. contradiction.
    + destruct (String.eqb k key'); [reflexivity | exact IH].
Qed.

(** X2. When [get_rating] without fallback fails, the exception is a
    [MissingRating] for the category asked, whose [key] is the key that was
    looked up; once a value is stored under that key the same label
    resolves to the value, whatever the fallback, and every label with
    another key resolves as before. *)
Theorem get_rating_key_stored name (dict : table pyfloat) label e v :
  get_rating name dict label None = Raise e ->
  e = MissingRating name (rating_key label)
  /\ missing_key e = Some (rating_key label)
  /\ (forall fallback,
        get_rating name (setitem (rating_key label) v dict) label fallback
          = Ok (VNum v))
  /\ (forall label' fallback,
        rating_key label' <> rating_key label ->
        get_rating name (setitem (rating_key label) v dict) label' fallback
          = get_rating name dict label' fallback).
Proof.
  unfold get_rating.
  destruct (lookup_key (rating_key label) dict) eqn:Hl; [discriminate|].
  intros [= <-]. repeat split.
  - intros fallback. now rewrite lookup_setitem_eq.
  - intros label' fallback Hne.
    now rewrite lookup_setitem_ne by congruence.
Qed.

Lemma get_rating_key_stored_witness :
  MissingRating "python" "novice" = MissingRating "python" (rating_key "novice (new)")
  /\ missing_key (MissingRating "python" "novice") = Some (rating_key "novice (new)")
  /\ (forall fallback,
        get_rating "python" (setitem (rating_key "novice (new)") (Fin 0)
                               [("expert", Fin 1)]) "novice (new)" fallback
          = Ok (VNum (Fin 0)))
  /\ (forall label' fallback,
        rating_key label' <> rating_key "novice (new)" ->
        get_rating "python" (setitem (rating_key "novice (new)") (Fin 0)
                               [("expert", Fin 1)]) label' fallback
          = get_rating "python" [("expert", Fin 1)] label' fallback).
Proof.
  apply (get_rating_key_stored "python" [("expert", Fin 1)] "novice (new)"
           (MissingRating "python" "novice") (Fin 0)).
  reflexivity.
Defined.

(** A rating that is in the table is returned whatever the fallback. *)
Lemma get_rating_found name (dict : table pyfloat) label v fallback :
  lookup_key (rating_key label) dict = Some v ->
  get_rating name dict label fallback = Ok (VNum v).
Proof. intros H. unfold get_rating. now rewrite H. Qed.

(** *** The report of a failed evaluation *)

Section Report.

Context {formula : Type}.
Variable py_expr : formula -> gmap string value
                   -> outcome pyerr value * gmap string value.

(** X3. When [eval_formula] raises its [ValueError], the cause is a
    [NameError] or a [TypeError], and the variables it reports are the
    variables it leaves to the caller and never hold ["__builtins__"],
    whether the caller had passed that key or not; when the evaluation of
    the formula has written nothing they are the caller's variables
    without that key. *)
Theorem eval_formula_report (f : formula) (vars : gmap string value) e shown :
  fst (eval_formula py_expr f vars) = Raise (ValueError e shown) ->
  snd (eval_formula py_expr f vars) = shown
  /\ shown !! "__builtins__" = None
  /\ ((exists x, e = NameError x) \/ e = TypeError)
  /\ (snd (py_expr f (eval_globals vars)) = eval_globals vars ->
      shown = delete "__builtins__" vars).
Proof.
  unfold eval_formula, py_eval.
  destruct (py_expr f (eval_globals vars)) as [[r|[x| |]] after]; simpl;
    try discriminate; intros [= <- <-];
    (repeat split; [apply lookup_delete_eq | eauto |]);
    intros ->; unfold eval_globals;
    (destruct (vars !! "__builtins__"); [reflexivity | apply delete_insert_eq]).
Qed.

End Report.

Lemma eval_formula_report_witness :
  snd (eval_formula interp (EVar "email") born_only) = born_only
  /\ born_only !! "__builtins__" = None
  /\ born_only = delete "__builtins__" born_only.
Proof.
  destruct (eval_formula_report interp (EVar "email") born_only (NameError "email")
              born_only eq_refl) as (H1 & H2 & _ & H3).
  exact (conj H1 (conj H2 (H3 eq_refl))).
Defined.

(** *** The mean of the grades *)

Lemma fold_add_fins (qs : list Q) : forall a : Q,
  exists s : Q, fold_left f_add (map Fin qs) (Fin a) = Fin s
                /\ (s == a + fold_right Qplus 0 qs)%Q.
Proof.
  induction qs as [|q qs IH]; intros a; simpl.
  - exists a. split; [reflexivity | ring].
  - destruct (IH (Qred (a + q))) as (s & Hs & Heq).
    exists s. split; [exact Hs|]. rewrite Heq, Qred_correct. ring.
Qed.

Lemma sum_between (lo hi : Q) (qs : list Q) :
  Forall (fun q => (lo <= q <= hi)%Q) qs ->
  (lo * inject_Z (Z.of_nat (length qs)) <= fold_right Qplus 0 qs
   <= hi * inject_Z (Z.of_nat (length qs)))%Q.
Proof.
  induction 1 as [|q qs [Hlo Hhi] _ [IHlo IHhi]].
  - simpl. split; ring_simplify; apply Qle_refl.
  - cbn [length fold_right]. rewrite Nat2Z.inj_succ. unfold Z.succ.
    rewrite inject_Z_plus. split.
    + assert (E : (lo * (inject_Z (Z.of_nat (length qs)) + inject_Z 1)
                   == lo + lo * inject_Z (Z.of_nat (length qs)))%Q) by ring.
      rewrite E. now apply Qplus_le_compat.
    + assert (E : (hi * (inject_Z (Z.of_nat (length qs)) + inject_Z 1)
                   == hi + hi * inject_Z (Z.of_nat (length qs)))%Q) by ring.
      rewrite E. now apply Qplus_le_compat.
Qed.

(** The grades that are present, when each is a finite number of [lo, hi]. *)
Lemma valid_grades (lo hi : Q) (self : list (option pyfloat)) :
  Forall (fun g => match g with
                   | None => True
                   | Some (Fin q) => (lo <= q <= hi)%Q
                   | Some _ => False
                   end) self ->
  exists qs, omap (fun item => item) self = map Fin qs
             /\ Forall (fun q => (lo <= q <= hi)%Q) qs
             /\ (qs = [] <-> Forall (fun g => g = None) self).
Proof.
  induction 1 as [|g self Hg _ (qs & Heq & Hall & Hnil)]; csimpl.
  - exists []. repeat split; auto.
  - destruct g as [[q| | |]|]; try contradiction; csimpl.
    + exists (q :: qs). csimpl. rewrite Heq. repeat split; auto.
      * discriminate.
      * intros Hn. inversion Hn; discriminate.
    + exists qs. rewrite Heq. repeat split; auto.
      * intros Hq. constructor; [reflexivity | now apply Hnil].
      * intros Hn. apply Hnil. now inversion Hn.
Qed.

Lemma mean_between (lo hi : Q) (self : list (option pyfloat)) :
  Forall (fun g => match g with
                   | None => True
                   | Some (Fin q) => (lo <= q <= hi)%Q
                   | Some _ => False
                   end) self ->
  (mean self = float_nan <-> Forall (fun g => g = None) self)
  /\ (~ Forall (fun g => g = None) self ->
      exists m, mean self = Fin m /\ (lo <= m <= hi)%Q).
Proof.
  intros Hself.
  destruct (valid_grades lo hi self Hself) as (qs & Heq & Hall & Hnil).
  unfold mean. rewrite Heq.
  destruct qs as [|q qs].
  - simpl. split; [split; [intros _; now apply Hnil | reflexivity]|].
    intros Hn. exfalso. apply Hn. now apply Hnil.
  - set (valid := map Fin (q :: qs)).
    assert (Hmean : exists m, f_div_count (fold_left f_add valid (Fin 0)) (length valid)
                              = Fin m /\ (lo <= m <= hi)%Q).
    { destruct (fold_add_fins (q :: qs) 0) as (s & Hs & Hsum).
      fold valid in Hs. rewrite Hs. simpl f_div_count.
      eexists. split; [reflexivity|].
      destruct (sum_between lo hi (q :: qs) Hall) as [Hlo Hhi].
      unfold valid. rewrite length_map.
      set (n := inject_Z (Z.of_nat (length (q :: qs)))) in *.
      assert (Hn : (0 < n)%Q).
      { unfold n. change 0%Q with (inject_Z 0). rewrite <- Zlt_Qlt.
        simpl length. lia. }
      rewrite Qred_correct, Hsum, Qplus_0_l. split.
      - apply Qle_shift_div_l; assumption.
      - apply Qle_shift_div_r; assumption. }
    change (match valid with [] => float_nan | _ => 
              f_div_count (fold_left f_add valid (Fin 0)) (length valid) end)
      with (f_div_count (fold_left f_add valid (Fin 0)) (length valid)).
    destruct Hmean as (m & Hm & Hbounds). rewrite Hm.
    split; [|intros _; now exists m].
    split; [discriminate|]. intros Hn. apply Hnil in Hn. discriminate.
Qed.

(** X4. For grades that are whole numbers between [lo] and [hi], as the
    grades of [SCORE_RANGE] are: [list_of_float.mean] is the NaN exactly
    when no grade is present, and otherwise a finite number between [lo]
    and [hi]. *)
Theorem mean_of_grades (lo hi : Z) (self : list (option pyfloat)) :
  Forall (fun g => match g with
                   | None => True
                   | Some (Fin q) => exists z, q = inject_Z z /\ (lo <= z <= hi)%Z
                   | Some _ => False
                   end) self ->
  (mean self = float_nan <-> Forall (fun g => g = None) self)
  /\ (~ Forall (fun g => g = None) self ->
      exists m, mean self = Fin m /\ (inject_Z lo <= m <= inject_Z hi)%Q).
Proof.
  intros Hself. apply mean_between.
  eapply Forall_impl; [exact Hself|].
  intros [[q| | |]|]; auto. intros (z & -> & Hz).
  rewrite <- !Zle_Qle. exact Hz.
Qed.

Lemma mean_of_grades_witness :
  (mean [Some (Fin (-1)); None; Some (Fin 0)] = float_nan
   <-> Forall (fun g => g = None) [Some (Fin (-1)); None; Some (Fin 0)])
  /\ (~ Forall (fun g => g = None) [Some (Fin (-1)); None; Some (Fin 0)] ->
      exists m, mean [Some (Fin (-1)); None; Some (Fin 0)] = Fin m
                /\ (inject_Z (-1) <= m <= inject_Z 1)%Q).
Proof.
  apply (mean_of_grades (-1) 1 [Some (Fin (-1)); None; Some (Fin 0)]).
  repeat constructor.
  - exists (-1)%Z. split; [reflexivity | lia].
  - exists 0%Z. split; [reflexivity | lia].
Defined.

(** *** The search domain of the bounds *)

Lemma length_flat_map_const {A B} (g : A -> list B) (n : nat) (l : list A) :
  (forall x, length (g x) = n) -> length (flat_map g l) = (length l * n)%nat.
Proof.
  intros Hg. induction l as [|x l IH]; simpl; [reflexivity|].
  now rewrite length_app, Hg, IH.
Qed.

Lemma length_product {A} (axes : list (list A)) :
  length (product axes) = fold_right (fun axis n => (length axis * n)%nat) 1%nat axes.
Proof.
  induction axes as [|axis rest IH]; simpl; [reflexivity|].
  rewrite (length_flat_map_const _ (length (product rest))).
  - now rewrite IH.
  - intros x. apply length_map.
Qed.

(** X5. The search domain of [find_min_max] has 576 points for each
    triple of a programming, an open-source and a Python rating value: its
    size is 576 times the product of the sizes of the three tables. *)
Theorem options_size (pr osr pyr : table pyfloat) :
  length (options pr osr pyr)
  = (576 * (length pr * length osr * length pyr))%nat.
Proof.
  unfold options. rewrite length_product. unfold _yield_values, values.
  cbn [fold_right]. rewrite !length_map. cbn [length].
  change (length SCORE_RANGE) with 3%nat.
  generalize (length pr) (length osr) (length pyr). intros a b c.
  rewrite Nat.mul_1_r, !Nat.mul_assoc. nia.
Qed.

(** A point of a product takes its coordinates from the axes in order. *)
Lemma product_point {A} (axes : list (list A)) : forall point,
  In point (product axes) -> Forall2 (fun x axis => In x axis) point axes.
Proof.
  induction axes as [|axis rest IH]; simpl; intros point Hin.
  - destruct Hin as [<- |[]]. constructor.
  - apply in_flat_map in Hin as (x & Hx & Hin).
    apply in_map_iff in Hin as (tail & <- & Htail).
    constructor; [exact Hx | now apply IH].
Qed.

Lemma yield_values_name var vals kv : In kv (_yield_values var vals) -> fst kv = var.
Proof.
  unfold _yield_values. intros H. apply in_map_iff in H as (v & <- & _). reflexivity.
Qed.

Lemma dict_lookup (pairs : list (string * value)) : forall (d : gmap string value) k,
  is_Some (fold_left (fun d kv => <[fst kv := snd kv]> d) pairs d !! k)
  <-> is_Some (d !! k) \/ In k (map fst pairs).
Proof.
  induction pairs as [|[k' v] pairs IH]; intros d k; simpl.
  - tauto.
  - rewrite IH, lookup_insert_is_Some. 
    destruct (decide (k' = k)) as [-> |Hne]; [tauto|].
    split; [intros [[H|[_ H]]|H]; tauto | intros [H|[H|H]]; tauto].
Qed.

(** X6. Every point of the search domain of [find_min_max] binds the
    eleven variables [born], [gender], [female], [nation], [country],
    [motivation], [cv], [programming], [open_source], [applied] and
    [python], and no other: in particular not [email], which
    [rank_person] passes to the formula. *)
Theorem domain_point_names (pr osr pyr : table pyfloat) vars :
  In vars (options pr osr pyr) ->
  map fst vars = domain_names
  /\ (forall k, is_Some (dict vars !! k) <-> In k domain_names)
  /\ dict vars !! "email" = None.
Proof.
  intros Hin.
  assert (Hnames : map fst vars = domain_names).
  { apply product_point in Hin.
    repeat match goal with
    | H : Forall2 _ _ (_ :: _) |- _ =>
        let Hhd := fresh "Hhd" in
        apply Forall2_cons_inv_r in H as (? & ? & Hhd & H & ->);
        apply yield_values_name in Hhd
    end.
    apply Forall2_nil_inv_r in Hin as ->. simpl.
    repeat match goal with H : fst _ = _ |- _ => rewrite H; clear H end.
    reflexivity. }
  assert (Hkeys : forall k, is_Some (dict vars !! k) <-> In k domain_names).
  { intros k. unfold dict. rewrite dict_lookup, lookup_empty, Hnames.
    split; [intros [[? H]|H]; [discriminate | exact H] | now right]. }
  repeat split; [exact Hnames | apply Hkeys | apply Hkeys |].
  apply eq_None_not_Some. rewrite Hkeys. unfold domain_names. simpl.
  intros H. repeat (destruct H as [H|H]; [discriminate|]). exact H.
Qed.

Lemma domain_point_names_witness :
  map fst (hd [] (options py_levels py_levels py_levels)) = domain_names
  /\ (forall k, is_Some (dict (hd [] (options py_levels py_levels py_levels)) !! k)
                <-> In k domain_names)
  /\ dict (hd [] (options py_levels py_levels py_levels)) !! "email" = None.
Proof.
  apply (domain_point_names py_levels py_levels py_levels).
  pose proof (options_nonempty py_levels py_levels py_levels
                ltac:(discriminate) ltac:(discriminate) ltac:(discriminate)) as Hne.
  destruct (options py_levels py_levels py_levels) as [|point points];
    [contradiction | now left].
Defined.

Lemma mapM_Forall2 {E A B} (g : A -> outcome E B) (l : list A) : forall l',
  mapM g l = Ok l' -> Forall2 (fun a b => g a = Ok b) l l'.
Proof.
  induction l as [|a l IH]; simpl; intros l' H.
  - injection H as <-. constructor.
  - destruct (g a) as [b|] eqn:Ha; [|discriminate]. simpl in H.
    destruct (mapM g l) as [bs|]; [|discriminate]. simpl in H.
    injection H as <-. constructor; [exact Ha | now apply IH].
Qed.

Lemma min_from_member (l : list value) : forall m r,
  min_from m l = Ok r -> In r (m :: l).
Proof.
  induction l as [|x l IH]; simpl; intros m r H.
  - injection H as <-. now left.
  - destruct (v_lt x m) as [b|]; [|discriminate]. simpl in H.
    apply IH in H. destruct b; simpl in H; tauto.
Qed.

Lemma max_from_member (l : list value) : forall m r,
  max_from m l = Ok r -> In r (m :: l).
Proof.
  induction l as [|x l IH]; simpl; intros m r H.
  - injection H as <-. now left.
  - destruct (v_lt m x) as [b|]; [|discriminate]. simpl in H.
    apply IH in H. destruct b; simpl in H; tauto.
Qed.

Section Bounds_attained.

Context {formula : Type}.
Variable py_expr : formula -> gmap string value
                   -> outcome pyerr value * gmap string value.

(** X7. When [find_min_max] returns bounds, the formula has a value at
    every point of the search domain, and on a domain that is not empty
    each of the two bounds is the value of the formula at some point of
    the domain. *)
Theorem find_min_max_attained (f : formula) (pr osr pyr : table pyfloat) lo hi :
  find_min_max py_expr f pr osr pyr = Ok (lo, hi) ->
  (forall vars, In vars (options pr osr pyr) ->
     exists v, fst (eval_formula py_expr f (dict vars)) = Ok v)
  /\ (options pr osr pyr <> [] ->
      exists at_lo at_hi,
        In at_lo (options pr osr pyr) /\ In at_hi (options pr osr pyr)
        /\ fst (eval_formula py_expr f (dict at_lo)) = Ok lo
        /\ fst (eval_formula py_expr f (dict at_hi)) = Ok hi).
Proof.
  unfold find_min_max.
  destruct (mapM _ (options pr osr pyr)) as [vals|] eqn:Hvals; [|discriminate].
  simpl. intros Hrun.
  apply mapM_Forall2 in Hvals. split.
  - intros vars Hin. apply list_elem_of_In in Hin.
    apply list_elem_of_lookup in Hin as [i Hi].
    destruct (Forall2_lookup_l _ _ _ _ _ Hvals Hi) as (v & _ & Hv). eauto.
  - intros Hne.
    destruct vals as [|v vs].
    { apply Forall2_nil_inv_r in Hvals. contradiction. }
    destruct (min_from v vs) as [lo'|] eqn:Hlo; [|discriminate]. simpl in Hrun.
    destruct (max_from v vs) as [hi'|] eqn:Hhi; [|discriminate]. simpl in Hrun.
    injection Hrun as <- <-.
    apply min_from_member, list_elem_of_In, list_elem_of_lookup in Hlo as [i Hi].
    apply max_from_member, list_elem_of_In, list_elem_of_lookup in Hhi as [j Hj].
    destruct (Forall2_lookup_r _ _ _ _ _ Hvals Hi) as (at_lo & Hat_lo & Hlo).
    destruct (Forall2_lookup_r _ _ _ _ _ Hvals Hj) as (at_hi & Hat_hi & Hhi).
    exists at_lo, at_hi. repeat split; try assumption;
      apply list_elem_of_In; eapply list_elem_of_lookup_2; eassumption.
Qed.

End Bounds_attained.

Lemma find_min_max_attained_witness :
  (forall vars, In vars (options [("competent", Fin 1)] [("user", Fin 1)] py_levels) ->
     exists v, fst (eval_formula interp (EVar "python") (dict vars)) = Ok v)
  /\ (options [("competent", Fin 1)] [("user", Fin 1)] py_levels <> [] ->
      exists at_lo at_hi,
        In at_lo (options [("competent", Fin 1)] [("user", Fin 1)] py_levels)
        /\ In at_hi (options [("competent", Fin 1)] [("user", Fin 1)] py_levels)
        /\ fst (eval_formula interp (EVar "python") (dict at_lo))
           = Ok (VNum (Fin (7 # 10)))
        /\ fst (eval_formula interp (EVar "python") (dict at_hi))
           = Ok (VNum (Fin (9 # 10)))).
Proof.
  apply (find_min_max_attained interp (EVar "python")
           [("competent", Fin 1)] [("user", Fin 1)] py_levels).
  now vm_compute.
Defined.

(** *** Equivalent spellings *)

Lemma known_lower (items : table (list string)) v v' :
  lower v = lower v' -> known items v = known items v'.
Proof.
  intros Hl. induction items as [|[key spellings] items IH]; simpl;
    [reflexivity|]. now rewrite Hl, IH.
Qed.

Lemma equiv_master_lower (items : table (list string)) v v' :
  lower v = lower v' ->
  known items v = true -> equiv_master_in items v = equiv_master_in items v'.
Proof.
  intros Hl. induction items as [|[key spellings] items IH]; simpl;
    [discriminate|].
  rewrite <- Hl.
  destruct (String.eqb (lower v) (lower key)
            || existsb (String.eqb (lower v)) (map lower spellings)); simpl;
    [reflexivity | exact IH].
Qed.

Lemma equiv_master_is_key (items : table (list string)) v :
  known items v = true -> In (equiv_master_in items v) (map fst items).
Proof.
  induction items as [|[key spellings] items IH]; simpl; [discriminate|].
  destruct (String.eqb (lower v) (lower key)
            || existsb (String.eqb (lower v)) (map lower spellings)); simpl;
    [now left | right; now apply IH].
Qed.

Lemma equiv_master_unknown_strip (items : table (list string)) v :
  known items v = false -> equiv_master_in items v = strip v.
Proof.
  induction items as [|[key spellings] items IH]; simpl; [reflexivity|].
  destruct (String.eqb (lower v) (lower key)
            || existsb (String.eqb (lower v)) (map lower spellings)); simpl;
    [discriminate | exact IH].
Qed.

(** X8. [_equiv_master] reads its argument in lower case only: two
    variants that differ by case alone are both found or both not found
    in the table; when they are found the result is the same key of the
    table for both, and a variant that is not found comes back stripped of
    surrounding white space. *)
Theorem equiv_master_ignores_case (items : table (list string)) v v' :
  lower v = lower v' ->
  known items v = known items v'
  /\ (known items v = true ->
      equiv_master_in items v = equiv_master_in items v'
      /\ In (equiv_master_in items v) (map fst items))
  /\ (known items v = false ->
      equiv_master_in items v = strip v /\ equiv_master_in items v' = strip v').
Proof.
  intros Hl. pose proof (known_lower items v v' Hl) as Hk.
  split; [exact Hk|]. split.
  - intros H. split; [now apply equiv_master_lower | now apply equiv_master_is_key].
  - intros H. split; apply equiv_master_unknown_strip; congruence.
Qed.

Lemma equiv_master_ignores_case_witness :
  known [("MPI", ["Max Planck Institute"])] "max planck INSTITUTE"
    = known [("MPI", ["Max Planck Institute"])] "Max Planck Institute"
  /\ (known [("MPI", ["Max Planck Institute"])] "max planck INSTITUTE" = true ->
      equiv_master_in [("MPI", ["Max Planck Institute"])] "max planck INSTITUTE"
        = equiv_master_in [("MPI", ["Max Planck Institute"])] "Max Planck Institute"
      /\ In (equiv_master_in [("MPI", ["Max Planck Institute"])] "max planck INSTITUTE")
            (map fst [("MPI", ["Max Planck Institute"])]))
  /\ (known [("MPI", ["Max Planck Institute"])] "max planck INSTITUTE" = false ->
      equiv_master_in [("MPI", ["Max Planck Institute"])] "max planck INSTITUTE"
        = strip "max planck INSTITUTE"
      /\ equiv_master_in [("MPI", ["Max Planck Institute"])] "Max Planck Institute"
        = strip "Max Planck Institute").
Proof.
  apply (equiv_master_ignores_case [("MPI", ["Max Planck Institute"])]
           "max planck INSTITUTE" "Max Planck Institute").
  reflexivity.
Defined.

Lemma existsb_eqb_In (x : string) (l : list string) :
  existsb (String.eqb x) l = true <-> In x l.
Proof.
  rewrite existsb_exists. split.
  - intros (y & Hy & E). apply String.eqb_eq in E. now subst.
  - intros H. exists x. split; [exact H | apply String.eqb_refl].
Qed.

Lemma equiv_master_setitem (items : table (list string)) key spellings s :
  known items s = false ->
  In (lower s) (map lower spellings) ->
  equiv_master_in (setitem key spellings items) s = key.
Proof.
  intros Hun Hin. apply existsb_eqb_In in Hin.
  induction items as [|[k x] items IH]; simpl.
  - rewrite Hin. now rewrite orb_true_r.
  - simpl in Hun. apply orb_false_iff in Hun as [Hhere Hrest].
    destruct (String.eqb k key) eqn:E; simpl.
    + apply String.eqb_eq in E. subst k. now rewrite Hin, orb_true_r.
    + rewrite Hhere. now apply IH.
Qed.

Lemma known_setitem (items : table (list string)) key spellings v :
  (forall old, lookup_key key items = Some old -> incl old spellings) ->
  known items v = true -> known (setitem key spellings items) v = true.
Proof.
  intros Hold. induction items as [|[k x] items IH]; simpl; [discriminate|].
  intros H. apply orb_true_iff in H.
  simpl in Hold. destruct (String.eqb k key) eqn:E; simpl.
  - destruct H as [H| ->]; [|apply orb_true_r].
    apply orb_true_iff in H as [H|H]; [now rewrite H|].
    assert (Hin : existsb (String.eqb (lower v)) (map lower spellings) = true).
    { apply existsb_eqb_In. apply existsb_eqb_In in H.
      apply in_map_iff in H as (y & Hy & Hin). apply in_map_iff.
      exists y. split; [exact Hy|]. now apply (Hold x eq_refl). }
    rewrite Hin. now rewrite orb_true_r.
  - destruct H as [-> |H]; [reflexivity|]. rewrite (IH Hold H). apply orb_true_r.
Qed.

(** X9. After [do_equiv] with the argument [variant = s1 = s2 ...], a
    spelling of the argument for which [_equiv_master] found nothing
    before gives the (stripped) [variant] as its master, and every variant
    that had a master before still has one. *)
Theorem do_equiv_then_master (equivs : table (list string)) args variant new :
  map strip (split "=" args) = variant :: new ->
  (forall s, In s new -> known equivs s = false ->
     equiv_master_in (do_equiv equivs args) s = variant)
  /\ (forall v, known equivs v = true -> known (do_equiv equivs args) v = true).
Proof.
  intros Hargs. unfold do_equiv. rewrite Hargs. split.
  - intros s Hs Hun. apply equiv_master_setitem; [exact Hun|].
    apply in_map, in_or_app. now right.
  - intros v Hv. apply known_setitem; [|exact Hv].
    intros old ->. simpl. now apply incl_appl.
Qed.

Lemma do_equiv_then_master_witness :
  (forall s, In s ["Max Planck Institute"; "MPG"] -> known [] s = false ->
     equiv_master_in (do_equiv [] "MPI = Max Planck Institute = MPG") s = "MPI")
  /\ (forall v, known [] v = true ->
        known (do_equiv [] "MPI = Max Planck Institute = MPG") v = true).
Proof.
  apply (do_equiv_then_master [] "MPI = Max Planck Institute = MPG" "MPI"
           ["Max Planck Institute"; "MPG"]).
  reflexivity.
Defined.

(** *** Writing and reading a list of equivalents *)

Lemma append_String' c p q : String c p ++ q = String c (p ++ q).
Proof. reflexivity. Qed.

Lemma split_nonempty sep s : split sep s <> [].
Proof.
  induction s as [|c s IH]; simpl; [discriminate|].
  destruct (Ascii.eqb c sep); [discriminate|].
  destruct (split sep s); [contradiction | discriminate].
Qed.

Lemma split_pieces sep s : Forall (fun piece => has_char sep piece = false) (split sep s).
Proof.
  induction s as [|c s IH]; simpl; [now repeat constructor|].
  destruct (Ascii.eqb c sep) eqn:E; [now constructor|].
  destruct (split sep s) as [|piece pieces]; [now repeat constructor; simpl; rewrite E|].
  inversion IH; subst. constructor; [|assumption]. simpl. now rewrite E.
Qed.

Lemma split_no_sep sep s : has_char sep s = false -> split sep s = [s].
Proof.
  induction s as [|c s IH]; simpl; [reflexivity|].
  intros H. apply orb_false_iff in H as [Hc Hs]. rewrite Hc, (IH Hs). reflexivity.
Qed.

Lemma split_app_sep sep p t :
  has_char sep p = false -> split sep (p ++ String sep t) = p :: split sep t.
Proof.
  induction p as [|c p IH]; simpl.
  - intros _. rewrite ?append_String'. simpl. now rewrite Ascii.eqb_refl.
  - intros H. apply orb_false_iff in H as [Hc Hp].
    rewrite ?append_String'. simpl. rewrite Hc, (IH Hp). reflexivity.
Qed.

Lemma rstrip_app_space s : rstrip (s ++ " ") = rstrip s.
Proof.
  induction s as [|c s IH]; [reflexivity|].
  rewrite append_String'. simpl. now rewrite IH.
Qed.

Lemma strip_app_space s : strip (s ++ " ") = strip s.
Proof.
  unfold strip. induction s as [|c s IH]; [reflexivity|].
  rewrite append_String'. simpl. destruct (isspace c); [exact IH|].
  apply (rstrip_app_space (String c s)).
Qed.

Lemma strip_space_app s : strip (String " " s) = strip s.
Proof. reflexivity. Qed.

Lemma reparse_clean (l : list string) :
  l <> [] -> Forall clean_item l -> map strip (split "=" (join " = " l)) = l.
Proof.
  induction l as [|x l IH]; [easy|]. intros _ Hall.
  inversion Hall as [|? ? [Hx Hsep] Hl]; subst.
  destruct l as [|y l].
  - simpl. rewrite (split_no_sep _ _ Hsep). simpl. now rewrite Hx.
  - change (join " = " (x :: y :: l))
      with (x ++ " = " ++ join " = " (y :: l)).
    change (x ++ " = " ++ join " = " (y :: l))
      with (x ++ String " " (String "=" (String " " (join " = " (y :: l))))).
    replace (x ++ String " " (String "=" (String " " (join " = " (y :: l)))))
      with ((x ++ " ") ++ String "=" (String " " (join " = " (y :: l)))).
    2:{ clear. induction x as [|c x IHx]; [reflexivity|].
        rewrite !append_String'. now rewrite IHx. }
    rewrite split_app_sep.
    2:{ clear - Hsep. induction x as [|c x IHx]; [reflexivity|].
        simpl in Hsep. apply orb_false_iff in Hsep as [Hc Hs].
        rewrite append_String'. simpl. now rewrite Hc, IHx. }
    specialize (IH ltac:(discriminate) Hl).
    set (t := join " = " (y :: l)) in *.
    change (split "=" (String " " t))
      with (match split "=" t with
            | piece :: pieces => String " " piece :: pieces
            | [] => [String " " EmptyString]
            end).
    destruct (split "=" t) as [|piece pieces] eqn:E.
    { now apply split_nonempty in E. }
    cbn [map] in *. rewrite strip_app_space, Hx, strip_space_app.
    now rewrite IH.
Qed.

Lemma list_of_equivs_clean text :
  Forall clean_item (list_of_equivs (Some text)).
Proof.
  unfold list_of_equivs. apply Forall_map.
  eapply Forall_impl; [apply (split_pieces "=" text)|].
  intros piece Hp. split; [apply strip_idem | now apply has_char_strip].
Qed.

(** X10. What [list_of_equivs] reads from a text is read back from what
    [str] writes for it: writing the list and reading it again changes
    nothing.  Only the empty list, which [list_of_equivs] never reads from
    a text, is read back as the list of the empty string. *)
Theorem list_of_equivs_reread text :
  list_of_equivs (Some (equivs_str (list_of_equivs (Some text))))
    = list_of_equivs (Some text)
  /\ list_of_equivs (Some text) <> []
  /\ list_of_equivs (Some (equivs_str (list_of_equivs None))) = [""].
Proof.
  split; [|split; [|reflexivity]].
  - apply reparse_clean; [|apply list_of_equivs_clean].
    unfold list_of_equivs. intros H. apply map_eq_nil in H.
    now apply split_nonempty in H.
  - unfold list_of_equivs. intros H. apply map_eq_nil in H.
    now apply split_nonempty in H.
Qed.

(** *** The ranked list *)

Lemma insert_desc_perm p l : insert_desc p l ≡ₚ p :: l.
Proof.
  induction l as [|q l IH]; simpl; [reflexivity|].
  destruct (key_lt p q); [|reflexivity].
  rewrite IH. apply perm_swap.
Qed.

Lemma sorted_desc_perm l : sorted_desc l ≡ₚ l.
Proof.
  unfold sorted_desc. induction l as [|p l IH]; simpl; [reflexivity|].
  now rewrite insert_desc_perm, IH.
Qed.

Section Ranking_facts.

Context {formula : Type}.
Variable py_expr : formula -> gmap string value
                   -> outcome pyerr value * gmap string value.

Lemma rank_loop_set_rank (config : Config (formula := formula)) (ranked : list Person) :
  forall labs rank out labs',
  rank_loop config labs rank ranked = (out, labs') ->
  Forall2 (fun p q => exists r, q = set_rank p r) ranked out.
Proof.
  induction ranked as [|person rest IH]; intros labs rank out labs' Hrun;
    simpl in Hrun.
  - injection Hrun as <- _. constructor.
  - destruct (labs !! lab_key config person);
      [|rewrite lookup_insert_eq in Hrun]; simpl in Hrun;
      destruct (rank_loop config _ _ rest) as [out1 labs1] eqn:Hrest;
      injection Hrun as <- _; (constructor; [eauto | eapply IH; exact Hrest]).
Qed.

Lemma assign_rankings_inv (config : Config) (applications ranked : list Person) labs :
  _assign_rankings py_expr config applications = Ok (ranked, labs) ->
  exists scored,
    Forall2 (fun p q => exists sc, q = set_score p sc) applications scored
    /\ rank_loop config ∅ 0 (sorted_desc scored) = (ranked, labs).
Proof.
  unfold _assign_rankings. destruct (cfg_formula config) as [f|]; [|discriminate].
  destruct (find_min_max _ _ _ _ _) as [[minsc maxsc]|]; [|discriminate].
  cbn [bind].
  destruct (mapM _ applications) as [scored|] eqn:Hscored; [|discriminate].
  cbn [bind]. intros [= H]. exists scored. split; [|exact H].
  apply mapM_Forall2 in Hscored.
  eapply Forall2_impl; [exact Hscored|]. intros p q Hq. cbv beta in Hq.
  destruct (rank_person _ _ _ _ _ _ _ _ _ _) as [sc|]; [|discriminate].
  cbn [bind] in Hq. injection Hq as <-. eauto.
Qed.

Lemma Forall2_map_eq {A B} (g : A -> B) (l l' : list A) :
  Forall2 (fun a b => g b = g a) l l' -> map g l' = map g l.
Proof. induction 1; simpl; congruence. Qed.

(** X11. [_assign_rankings] neither loses nor repeats an applicant: the
    list it leaves holds the applicants it was given, in another order,
    each with a score and a rank. *)
Theorem assign_rankings_keeps_applicants
    (config : Config (formula := formula)) (applications ranked : list Person) labs :
  _assign_rankings py_expr config applications = Ok (ranked, labs) ->
  map unranked ranked ≡ₚ map unranked applications
  /\ length ranked = length applications
  /\ Forall (fun p => is_Some (score p) /\ is_Some (Grader.rank p)) ranked.
Proof.
  intros Hrun. apply assign_rankings_inv in Hrun as (scored & Hscored & Hloop).
  apply rank_loop_set_rank in Hloop.
  assert (Hperm : map unranked ranked ≡ₚ map unranked applications).
  { rewrite (Forall2_map_eq unranked (sorted_desc scored) ranked).
    - transitivity (map unranked scored).
      + apply Permutation_map, sorted_desc_perm.
      + rewrite (Forall2_map_eq unranked applications scored); [reflexivity|].
        eapply Forall2_impl; [exact Hscored|]. now intros p q [sc ->].
    - eapply Forall2_impl; [exact Hloop|]. now intros p q [r ->]. }
  split; [exact Hperm|]. split.
  - apply Permutation_length in Hperm. now rewrite !length_map in Hperm.
  - assert (Hs : Forall (fun p => is_Some (score p)) (sorted_desc scored)).
    { rewrite sorted_desc_perm. apply Forall2_Forall_r with (1 := Hscored).
      apply Forall_forall. intros p _ q [sc ->]. simpl. eauto. }
    clear - Hloop Hs. induction Hloop as [|p q l l' [r ->] _ IH]; [constructor|].
    inversion Hs; subst. constructor; [|now apply IH].
    split; [assumption | simpl; eauto].
Qed.

(** Scores without NaN: [<] and its negation behave as on an ordered set. *)
Lemma f_le_not_lt x y : f_le x y = true -> f_lt y x = false.
Proof.
  destruct x as [a| | |], y as [b| | |]; simpl; try easy.
  now intros ->.
Qed.

Lemma not_below_trans p q z :
  has_number p -> has_number q -> has_number z ->
  not_below p q -> not_below q z -> not_below p z.
Proof.
  unfold not_below, key_lt.
  intros (a & -> & Ha) (b & -> & Hb) (c & -> & Hc) Hpq Hqz.
  apply f_le_not_lt. apply (f_le_trans c b a); now apply f_not_lt_le.
Qed.

Lemma key_lt_asym p q : key_lt p q = true -> not_below q p.
Proof.
  unfold not_below, key_lt. destruct (score p) as [a|], (score q) as [b|]; try easy.
  intros H. apply f_le_not_lt. now apply f_lt_le.
Qed.

Lemma insert_desc_sorted p l :
  has_number p -> Forall has_number l ->
  StronglySorted not_below l -> StronglySorted not_below (insert_desc p l).
Proof.
  intros Hp Hl Hs. induction Hs as [|q l Hs IH Hq]; simpl.
  - repeat constructor.
  - inversion Hl as [|? ? Hnq Hnl]; subst.
    destruct (key_lt p q) eqn:E.
    + constructor; [now apply IH|].
      rewrite insert_desc_perm. constructor; [now apply key_lt_asym | exact Hq].
    + constructor; [now constructor|].
      constructor; [exact E|].
      rewrite Forall_forall in Hq, Hnl |- *. intros z Hz.
      apply (not_below_trans p q z); auto.
Qed.

Lemma sorted_desc_sorted l :
  Forall has_number l -> StronglySorted not_below (sorted_desc l).
Proof.
  unfold sorted_desc. induction 1 as [|p l Hp Hl IH]; simpl; [constructor|].
  apply insert_desc_sorted; [exact Hp | | exact IH].
  fold (sorted_desc l). now rewrite sorted_desc_perm.
Qed.

Lemma StronglySorted_Forall2 {A} (R : A -> A -> Prop) (T : A -> A -> Prop) l l' :
  (forall a a' b b', T a a' -> T b b' -> R a b -> R a' b') ->
  Forall2 T l l' -> StronglySorted R l -> StronglySorted R l'.
Proof.
  intros HT H. induction H as [|a a' l l' Ha Hl IH]; intros Hs; [constructor|].
  apply StronglySorted_inv in Hs as [Hs Hall]. constructor; [now apply IH|].
  clear - HT Ha Hl Hall. induction Hl as [|b b' l l' Hb _ IH]; [constructor|].
  inversion Hall; subst. constructor; [eapply HT; eassumption | now apply IH].
Qed.

(** X12. When no score is the NaN, the list that [_assign_rankings]
    leaves is in descending order of the scores: no applicant stands
    before one with a strictly greater score. *)
Theorem assign_rankings_descending
    (config : Config (formula := formula)) (applications ranked : list Person) labs :
  _assign_rankings py_expr config applications = Ok (ranked, labs) ->
  Forall has_number ranked ->
  StronglySorted not_below ranked.
Proof.
  intros Hrun Hnum. apply assign_rankings_inv in Hrun as (scored & _ & Hloop).
  apply rank_loop_set_rank in Hloop.
  assert (H : Forall has_number (sorted_desc scored)).
  { clear - Hloop Hnum. induction Hloop as [|p q l l' [r ->] _ IH]; [constructor|].
    inversion Hnum; subst. constructor; [assumption | now apply IH]. }
  rewrite sorted_desc_perm in H.
  apply (StronglySorted_Forall2 not_below (fun p q => exists r, q = set_rank p r)
           (sorted_desc scored) ranked).
  - intros a a' b b' [r ->] [r' ->] Hab. exact Hab.
  - exact Hloop.
  - now apply sorted_desc_sorted.
Qed.

End Ranking_facts.

Lemma has_number_forallb (l : list Person) :
  forallb has_numberb l = true -> Forall has_number l.
Proof.
  induction l as [|p l IH]; simpl; intros H; constructor.
  - apply andb_true_iff in H as [H _]. unfold has_numberb in H.
    destruct (score p) as [s|] eqn:E; [|discriminate].
    exists s. split; [exact E | now apply negb_true_iff].
  - apply andb_true_iff in H as [_ H]. now apply IH.
Qed.

Lemma ranked_cohort_pair :
  _assign_rankings interp (config (EVar "python")) cohort
  = Ok (fst ranked_cohort, snd ranked_cohort).
Proof. rewrite ranked_cohort_run. now destruct ranked_cohort. Qed.

Lemma assign_rankings_keeps_applicants_witness :
  map unranked (fst ranked_cohort) ≡ₚ map unranked cohort
  /\ length (fst ranked_cohort) = length cohort
  /\ Forall (fun p => is_Some (score p) /\ is_Some (Grader.rank p)) (fst ranked_cohort).
Proof.
  exact (assign_rankings_keeps_applicants interp (config (EVar "python")) cohort
           (fst ranked_cohort) (snd ranked_cohort) ranked_cohort_pair).
Defined.

Lemma assign_rankings_descending_witness :
  StronglySorted not_below (fst ranked_cohort).
Proof.
  apply (assign_rankings_descending interp (config (EVar "python")) cohort
           (fst ranked_cohort) (snd ranked_cohort) ranked_cohort_pair).
  apply has_number_forallb. now vm_compute.
Defined.

(** *** The rank numbers *)

Section Rank_numbers.

Context {formula : Type}.
Variable py_expr : formula -> gmap string value
                   -> outcome pyerr value * gmap string value.

Lemma rank_loop_cover (config : Config (formula := formula)) (ranked : list Person) :
  forall labs rank out labs',
  rank = size labs ->
  (forall k r, labs !! k = Some r -> (r < rank)%nat) ->
  rank_loop config labs rank ranked = (out, labs') ->
  (rank <= size labs')%nat
  /\ Forall (fun p => exists r, Grader.rank p = Some r /\ (r < size labs')%nat) out
  /\ (forall r, (rank <= r < size labs')%nat ->
        exists p, In p out /\ Grader.rank p = Some r)
  /\ (forall k, is_Some (labs' !! k)
               <-> is_Some (labs !! k) \/ In k (map (lab_key config) out)).
Proof.
  induction ranked as [|person rest IH]; intros labs rank out labs' Hsize Hb Hrun;
    simpl in Hrun.
  - injection Hrun as <- <-. subst rank.
    split; [lia|]. split; [constructor|]. split; [intros r Hr; lia|].
    intros k. simpl. tauto.
  - set (lab := lab_key config person) in *.
    destruct (labs !! lab) as [r0|] eqn:Hlab.
    + rewrite Hlab in Hrun. simpl in Hrun.
      destruct (rank_loop config labs rank rest) as [out1 labs1] eqn:Hrest.
      injection Hrun as <- <-.
      destruct (IH _ _ _ _ Hsize Hb Hrest) as (Hle & Hall & Hcov & Hkeys).
      repeat split; [exact Hle | | | |].
      * constructor; [|exact Hall]. exists r0. split; [reflexivity|].
        apply Hb in Hlab. lia.
      * intros r Hr. destruct (Hcov r Hr) as (p & Hp & Hrp).
        exists p. split; [now right | exact Hrp].
      * intros Hk. apply Hkeys in Hk as [Hk|Hk]; [now left|]. right. now right.
      * intros [Hk|[Hk|Hk]]; apply Hkeys; [now left | | now right].
        left. assert (E : k = lab) by (rewrite <- Hk; apply lab_key_set_rank).
        rewrite E, Hlab. eauto.
    + rewrite lookup_insert_eq in Hrun. simpl in Hrun.
      destruct (rank_loop config (<[lab:=rank]> labs) (S rank) rest)
        as [out1 labs1] eqn:Hrest.
      injection Hrun as <- <-.
      assert (Hsize1 : S rank = size (<[lab:=rank]> labs)).
      { rewrite map_size_insert_None by exact Hlab. now rewrite Hsize. }
      assert (Hb1 : forall k r, <[lab:=rank]> labs !! k = Some r -> (r < S rank)%nat).
      { intros k r. rewrite lookup_insert.
        destruct (decide (lab = k)) as [_|_].
        - intros [= <-]. lia.
        - intros Hk. apply Hb in Hk. lia. }
      destruct (IH _ _ _ _ Hsize1 Hb1 Hrest) as (Hle & Hall & Hcov & Hkeys).
      repeat split; [lia | | | |].
      * constructor; [|exact Hall]. exists rank. split; [reflexivity | lia].
      * intros r Hr. destruct (decide (r = rank)) as [-> |Hne].
        -- eexists. split; [now left | reflexivity].
        -- destruct (Hcov r ltac:(lia)) as (p & Hp & Hrp).
           exists p. split; [now right | exact Hrp].
      * intros Hk. apply Hkeys in Hk as [Hk|Hk]; [|right; now right].
        apply lookup_insert_is_Some in Hk as [<- |[_ Hk]]; [|now left].
        right. now left.
      * intros [Hk|[Hk|Hk]]; apply Hkeys; [| | now right]; left;
          apply lookup_insert_is_Some.
        -- destruct (decide (lab = k)); [now left | now right].
        -- left. exact Hk.
Qed.

(** X13. After [_assign_rankings] the rank numbers are exactly the
    numbers below the number of labs: [labs] has one entry for each lab
    key of the applicants, every rank is smaller than its size, and every
    smaller number is the rank of some applicant. *)
Theorem ranks_are_the_first_numbers
    (config : Config (formula := formula)) (applications ranked : list Person) labs :
  _assign_rankings py_expr config applications = Ok (ranked, labs) ->
  (forall k, is_Some (labs !! k) <-> In k (map (lab_key config) ranked))
  /\ Forall (fun p => exists r, Grader.rank p = Some r /\ (r < size labs)%nat) ranked
  /\ (forall r, (r < size labs)%nat -> exists p, In p ranked /\ Grader.rank p = Some r).
Proof.
  intros Hrun. apply assign_rankings_loop in Hrun as [scored Hloop].
  destruct (rank_loop_cover config _ ∅ 0%nat ranked labs
              (eq_sym (map_size_empty (M := gmap string))) 
              ltac:(intros k r; now rewrite lookup_empty) Hloop)
    as (_ & Hall & Hcov & Hkeys).
  repeat split; [| | exact Hall |].
  - intros Hk. apply Hkeys in Hk as [[? Hk]|Hk]; [|exact Hk].
    now rewrite lookup_empty in Hk.
  - intros Hk. apply Hkeys. now right.
  - intros r Hr. apply Hcov. lia.
Qed.

End Rank_numbers.

Lemma ranks_are_the_first_numbers_witness :
  (forall k, is_Some (snd ranked_cohort !! k)
             <-> In k (map (lab_key (config (EVar "python"))) (fst ranked_cohort)))
  /\ Forall (fun p => exists r, Grader.rank p = Some r
                       /\ (r < size (snd ranked_cohort))%nat) (fst ranked_cohort)
  /\ (forall r, (r < size (snd ranked_cohort))%nat ->
        exists p, In p (fst ranked_cohort) /\ Grader.rank p = Some r).
Proof.
  exact (ranks_are_the_first_numbers interp (config (EVar "python")) cohort
           (fst ranked_cohort) (snd ranked_cohort) ranked_cohort_pair).
Defined.

(** *** The list in the order of the ranks *)

Lemma insert_asc_perm p l : insert_asc p l ≡ₚ p :: l.
Proof.
  induction l as [|q l IH]; simpl; [reflexivity|].
  destruct (rank_lt q p); [|reflexivity].
  rewrite IH. apply perm_swap.
Qed.

Lemma sort_asc_perm l : foldr insert_asc [] l ≡ₚ l.
Proof.
  induction l as [|p l IH]; simpl; [reflexivity|].
  now rewrite insert_asc_perm, IH.
Qed.

Lemma insert_asc_sorted p l :
  is_Some (Grader.rank p) -> Forall (fun q => is_Some (Grader.rank q)) l ->
  StronglySorted rank_le l -> StronglySorted rank_le (insert_asc p l).
Proof.
  intros [a Ha] Hl Hs. induction Hs as [|q l Hs IH Hq]; simpl.
  - repeat constructor.
  - inversion Hl as [|? ? [b Hb] Hnl]; subst.
    unfold rank_lt. rewrite Ha, Hb.
    destruct (b <? a)%nat eqn:E.
    + apply Nat.ltb_lt in E. constructor; [now apply IH|].
      rewrite insert_asc_perm. constructor; [|exact Hq].
      exists b, a. repeat split; [assumption.. | lia].
    + apply Nat.ltb_ge in E. constructor; [now constructor|].
      constructor; [exists a, b; auto|].
      rewrite Forall_forall in Hq |- *. intros z Hz.
      destruct (Hq z Hz) as (b' & c & Hb' & Hc & Hle).
      exists a, c. repeat split; [assumption.. |]. 
      rewrite Hb in Hb'. injection Hb' as <-. lia.
Qed.

Lemma sort_asc_sorted l :
  Forall (fun q => is_Some (Grader.rank q)) l ->
  StronglySorted rank_le (foldr insert_asc [] l).
Proof.
  induction 1 as [|p l Hp Hl IH]; simpl; [constructor|].
  apply insert_asc_sorted; [exact Hp | | exact IH].
  now rewrite sort_asc_perm.
Qed.

Lemma existsb_no_rank (l : list Person) :
  Forall (fun q => is_Some (Grader.rank q)) l ->
  existsb (fun p => match Grader.rank p with None => true | Some _ => false end) l
  = false.
Proof.
  induction 1 as [|p l [r Hr] _ IH]; simpl; [reflexivity|]. now rewrite Hr.
Qed.

Lemma ranked_sorts_by_rank (applications : list Person) :
  Forall (fun q => is_Some (Grader.rank q)) applications ->
  exists listed,
    _ranked applications = Ok listed
    /\ listed ≡ₚ applications
    /\ StronglySorted rank_le listed
    /\ StronglySorted le (ranks listed).
Proof.
  intros Hall. exists (foldr insert_asc [] applications).
  unfold _ranked. rewrite (existsb_no_rank _ Hall), andb_false_r.
  pose proof (sort_asc_sorted _ Hall) as Hs.
  repeat split; [apply sort_asc_perm | exact Hs |].
  clear Hall. induction Hs as [|p l Hs IH Hp]; [constructor|].
  unfold ranks in *. csimpl.
  destruct (Grader.rank p) as [a|] eqn:Ha; csimpl; [|exact IH].
  constructor; [exact IH|].
  clear - Hp Ha. induction Hp as [|q l (a' & b & Ha' & Hb & Hle) _ IH]; csimpl;
    [constructor|].
  rewrite Hb. csimpl. constructor; [|exact IH].
  rewrite Ha in Ha'. injection Ha' as <-. exact Hle.
Qed.

Section Ranked_list.

Context {formula : Type}.
Variable py_expr : formula -> gmap string value
                   -> outcome pyerr value * gmap string value.

(** X14. After [_assign_rankings], [_ranked] does not fail on the
    applicants, in whatever order they are kept: it returns every one of
    them once, in ascending order of the ranks, so that along the list
    that [do_rank] prints the rank numbers never go down. *)
Theorem ranked_after_assign_rankings
    (config : Config (formula := formula)) (applications ranked : list Person) labs
    (kept : list Person) :
  _assign_rankings py_expr config applications = Ok (ranked, labs) ->
  kept ≡ₚ ranked ->
  exists listed,
    _ranked kept = Ok listed
    /\ listed ≡ₚ ranked
    /\ StronglySorted rank_le listed
    /\ StronglySorted le (ranks listed).
Proof.
  intros Hrun Hkept. apply assign_rankings_loop in Hrun as [scored Hloop].
  destruct (rank_loop_cover config _ ∅ 0%nat ranked labs
              (eq_sym (map_size_empty (M := gmap string)))
              ltac:(intros k r; now rewrite lookup_empty) Hloop)
    as (_ & Hall & _).
  assert (Hsome : Forall (fun q => is_Some (Grader.rank q)) kept).
  { rewrite Hkept. eapply Forall_impl; [exact Hall|].
    intros p (r & Hr & _). now exists r. }
  destruct (ranked_sorts_by_rank kept Hsome) as (listed & Hok & Hperm & Hs & Hs').
  exists listed. repeat split; [exact Hok | now rewrite Hperm | exact Hs | exact Hs'].
Qed.

End Ranked_list.

Lemma ranked_after_assign_rankings_witness :
  exists listed,
    _ranked (rev (fst ranked_cohort)) = Ok listed
    /\ listed ≡ₚ fst ranked_cohort
    /\ StronglySorted rank_le listed
    /\ StronglySorted le (ranks listed).
Proof.
  exact (ranked_after_assign_rankings interp (config (EVar "python")) cohort
           (fst ranked_cohort) (snd ranked_cohort) (rev (fst ranked_cohort))
           ranked_cohort_pair
           (Permutation_sym (Permutation_rev (fst ranked_cohort)))).
Defined.

(** *** The files of recipients *)

Lemma fold_last_index (n : nat) : forall a d,
  fold_left (fun _ i => i) (seq a n) d = match n with O => d | S m => (a + m)%nat end.
Proof.
  induction n as [|n IH]; intros a d; simpl; [reflexivity|].
  rewrite IH. destruct n; [lia | lia].
Qed.

(** X15. [_write_file] writes the header and one row for each person,
    and its message reports the number of persons, except for an empty
    list where it reports one row although none was written. *)
Theorem write_file_rows (persons : list Person) :
  length (fst (_write_file persons)) = S (length persons)
  /\ hd "" (fst (_write_file persons)) = "$NAME$;$SURNAME$;$EMAIL$" ++ newline
  /\ snd (_write_file persons) = Nat.max 1 (length persons).
Proof.
  unfold _write_file. cbn [fst snd hd length]. rewrite length_map.
  repeat split. rewrite fold_last_index. destruct (length persons); lia.
Qed.

End GraderMoreFacts.

(** ** More about create_groups.py *)

Module CreateGroupsMoreFacts.

Import CreateGroups CreateGroupsFacts.

Local Open Scope R_scope.

(** *** Proposals that are always undone *)

Section Optimizer_edges.

Variable NSTUDENTS : nat.
Context {G : Type}.
Variable randint : nat -> G -> (nat * nat) * G.
Variable rand : G -> R * G.

(** X16. With [p >= 1], and [np.random.rand] drawing below 1 as it does,
    [optimize] undoes every exchange it tries, also those that lower the
    energy: the array it leaves is the array it was given, row by row,
    for every energy function. *)
Theorem optimize_p_one_undoes_all fuel K energy p (rep : nat) :
  1 <= p -> (forall g, fst (rand g) < 1) ->
  forall (data : matrix) (weights : list R) (g : G) data' weights' g',
  optimize NSTUDENTS randint rand fuel data K rep energy weights p g
    = Ok (data', weights', g') ->
  data' = data.
Proof.
  intros Hp Hrand.
  induction rep as [|rep IH]; intros data weights g data' weights' g' Hrun;
    simpl in Hrun.
  - now injection Hrun as <- _ _.
  - destruct (randint NSTUDENTS g) as [idx g1].
    destruct (resample NSTUDENTS randint fuel K idx g1) as [[idx' g2]|];
      [|discriminate]. simpl in Hrun.
    destruct (energy data K weights) as [[E1 w1]|]; [|discriminate].
    simpl in Hrun.
    destruct (swap_rows idx' data) as [data2|] eqn:Hswap; [|discriminate].
    simpl in Hrun.
    destruct (energy data2 K w1) as [[E2 w2]|]; [|discriminate].
    simpl in Hrun.
    assert (Hback : forall g3,
      (do data3 <- swap_rows idx' data2;
       optimize NSTUDENTS randint rand fuel data3 K rep energy w2 p g3)
        = Ok (data', weights', g') -> data' = data).
    { intros g3 H. rewrite (swap_rows_twice _ _ _ Hswap) in H. simpl in H.
      now apply IH in H. }
    destruct (Rlt_dec E1 E2); [now apply Hback in Hrun|].
    destruct (Rlt_dec 0 p) as [_|Hn]; [|lra].
    pose proof (Hrand g2) as Hu. destruct (rand g2) as [u g3]. simpl in Hu.
    destruct (Rlt_dec u p) as [_|Hn]; [now apply Hback in Hrun | lra].
Qed.

(** *** A single group *)

Lemma resample_single_group fuel K :
  (NSTUDENTS <= K)%nat ->
  (forall g, ((randint NSTUDENTS g).1.1 < NSTUDENTS)%nat
             /\ ((randint NSTUDENTS g).1.2 < NSTUDENTS)%nat) ->
  forall idx g,
  (idx.1 < NSTUDENTS)%nat /\ (idx.2 < NSTUDENTS)%nat ->
  resample NSTUDENTS randint fuel K idx g = Raise Diverges.
Proof.
  intros HK Hrange. induction fuel as [|fuel IH]; intros idx g [Ha Hb]; simpl;
    rewrite !Nat.div_small by lia; simpl; [reflexivity|].
  specialize (Hrange g). destruct (randint NSTUDENTS g) as [idx1 g1].
  now apply IH.
Qed.

(** X17. When the group size is not below the number of students, every
    two rows lie in the same group and the [while] loop of [optimize]
    never finds a pair: with at least one repetition the call does not
    return, whatever the number of draws it is allowed. *)
Theorem optimize_single_group_never_returns fuel K energy (data : matrix)
    (weights : list R) p (rep : nat) (g : G) :
  (NSTUDENTS <= K)%nat ->
  (forall g, ((randint NSTUDENTS g).1.1 < NSTUDENTS)%nat
             /\ ((randint NSTUDENTS g).1.2 < NSTUDENTS)%nat) ->
  optimize NSTUDENTS randint rand fuel data K (S rep) energy weights p g
    = Raise Diverges.
Proof.
  intros HK Hrange. simpl.
  pose proof (Hrange g) as Hidx. destruct (randint NSTUDENTS g) as [idx g1].
  now rewrite (resample_single_group fuel K HK Hrange idx g1 Hidx).
Qed.

End Optimizer_edges.

Lemma optimize_p_one_undoes_all_witness :
  exists data' w' g',
    optimize 4 Demo.draw_0_2 Demo.draw_zero 1 Demo.students 2 3
      (energy 4 2 Demo.students) Demo.ones 1 tt = Ok (data', w', g')
    /\ data' = Demo.students.
Proof.
  destruct (optimize_returns 4 Demo.draw_0_2 Demo.draw_zero 1 2
              (energy 4 2 Demo.students) 1 Demo.students 5)
    with (rep := 3%nat) (data := Demo.students) (weights := Demo.ones) (g := tt)
    as [[[data' w'] g'] Hrun]; [| | | reflexivity | reflexivity |].
  - intros d v Hp Hv. rewrite (students_energy d v Hp Hv).
    eexists _, _. split; [reflexivity|]. now rewrite length_normalized.
  - intros g. simpl. lia.
  - intros idx g. simpl. destruct (_ =? _)%nat; eauto.
  - exists data', w', g'. split; [exact Hrun|].
    apply (optimize_p_one_undoes_all 4 Demo.draw_0_2 Demo.draw_zero 1 2
             (energy 4 2 Demo.students) 1 3 ltac:(lra)
             ltac:(intros g; simpl; lra) _ _ _ _ _ _ Hrun).
Defined.

Lemma optimize_single_group_never_returns_witness :
  optimize 4 Demo.draw_0_2 Demo.draw_zero 7 Demo.students 4 1
    (energy 4 4 Demo.students) Demo.ones 0 tt = Raise Diverges.
Proof.
  apply (optimize_single_group_never_returns 4 Demo.draw_0_2 Demo.draw_zero 7 4
           (energy 4 4 Demo.students) Demo.students Demo.ones 0 0 tt).
  - lia.
  - intros g. simpl. lia.
Defined.

(** *** The energy *)

Lemma np_std_not_negative (a : list R) : 0 <= np_std a.
Proof. unfold np_std. apply sqrt_pos. Qed.

Lemma nth_normalized_not_negative (w : list R) (j : nat) :
  Forall (fun x => 0 <= x) w -> 0 < np_sum w -> 0 <= nth j (normalized w) 0.
Proof.
  intros Hw Hsum. unfold normalized.
  assert (Hc : 0 <= 1 / np_sum w).
  { apply Rlt_le. apply Rdiv_lt_0_compat; lra. }
  generalize dependent (1 / np_sum w). intros c Hc. clear Hsum.
  revert j. induction Hw as [|x l Hx _ IH]; intros [|j]; simpl; try lra.
  - now apply Rmult_le_pos.
  - apply IH.
Qed.

Section Energy_edges.

Variable NSTUDENTS GSIZE : nat.
Variable rated : matrix.

Local Abbreviation NGROUPS := (NGROUPS NSTUDENTS GSIZE).
Local Abbreviation energy := (energy NSTUDENTS GSIZE rated).
Local Abbreviation energy_mudeviation := (energy_mudeviation NSTUDENTS GSIZE).

(** X18. For weights that are not negative and do not all vanish, the
    energy is not negative.  (The groups are taken to hold a student
    each: numpy's mean of an empty group, and its deviation of no group,
    is the NaN.) *)
Theorem energy_not_negative (data : matrix) (K : nat) (weights : list R) E w' :
  (0 < K)%nat -> (0 < NGROUPS)%nat -> (NGROUPS * K <= length data)%nat ->
  Forall (fun x => 0 <= x) weights -> 0 < np_sum weights ->
  energy data K weights = Ok (E, w') ->
  0 <= E.
Proof.
  intros _ _ _ Hw Hsum Hrun.
  apply energy_inv in Hrun as [-> _]. unfold CreateGroups.energy_value.
  assert (Hterm : forall j col,
    0 <= nth j (normalized weights) 0 * energy_mudeviation col K 0).
  { intros j col. apply Rmult_le_pos.
    - now apply nth_normalized_not_negative.
    - apply np_std_not_negative. }
  pose proof (Hterm 0%nat). pose proof (Hterm 1%nat). pose proof (Hterm 2%nat).
  pose proof (Hterm 3%nat). pose proof (Hterm 4%nat).
  repeat apply Rplus_le_le_0_compat; auto.
Qed.

Lemma gslice_take {A} (i K n : nat) (a : list A) :
  (i * K + K <= n)%nat -> gslice i K (take n a) = gslice i K a.
Proof.
  intros H. unfold gslice.
  rewrite !(take_drop_commute _ K (i * K)), take_take.
  now rewrite Nat.min_l by lia.
Qed.

Lemma energy_mudeviation_take (col : list R) (K : nat) mu :
  energy_mudeviation (take (NGROUPS * K) col) K mu = energy_mudeviation col K mu.
Proof.
  unfold CreateGroups.energy_mudeviation. f_equal. apply map_ext_in.
  intros i Hi. apply in_seq in Hi. f_equal. apply gslice_take. nia.
Qed.

Lemma energy_mudeviation_leftover (data data' : matrix) (K j : nat) mu :
  take (NGROUPS * K) data = take (NGROUPS * K) data' ->
  energy_mudeviation (map (fun row => nth j row 0) data) K mu
  = energy_mudeviation (map (fun row => nth j row 0) data') K mu.
Proof.
  intros H.
  rewrite <- (energy_mudeviation_take (map _ data)),
          <- (energy_mudeviation_take (map _ data')).
  now rewrite !firstn_map, H.
Qed.

(** X19. The rows after the last full group, the students who are in no
    group, do not count: two arrays of the same width that agree on their
    first [NGROUPS * K] rows have the same energy, or fail alike. *)
Theorem energy_ignores_leftover_rows (data data' : matrix) (K : nat)
    (weights : list R) :
  data <> [] -> data' <> [] -> shape1 data = shape1 data' ->
  take (NGROUPS * K) data = take (NGROUPS * K) data' ->
  energy data K weights = energy data' K weights.
Proof.
  intros Hne Hne' Hshape Htake. unfold CreateGroups.energy.
  destruct data as [|r d]; [easy|]. destruct data' as [|r' d']; [easy|].
  set (D := r :: d) in *. set (D' := r' :: d') in *.
  rewrite Hshape. destruct (negb _); [reflexivity|].
  unfold column. rewrite Hshape.
  repeat match goal with
  | |- context [getitem ?a ?j] => destruct (getitem a j); cbn [bind]; [|reflexivity]
  | |- context [(?j <? ?n)%nat] => destruct (j <? n)%nat; cbn [bind]; [|reflexivity]
  end.
  now rewrite !(energy_mudeviation_leftover D D' K _ _ Htake).
Qed.

End Energy_edges.

Lemma energy_not_negative_witness :
  exists E w', energy 4 2 Demo.students Demo.students 2 Demo.ones = Ok (E, w')
               /\ 0 <= E.
Proof.
  eexists _, _. split; [apply students_energy; reflexivity|].
  apply (energy_not_negative 4 2 Demo.students Demo.students 2 Demo.ones _
           (normalized Demo.ones)).
  - lia.
  - unfold NGROUPS. simpl. lia.
  - unfold NGROUPS. simpl. lia.
  - unfold Demo.ones. repeat constructor; lra.
  - unfold Demo.ones, np_sum. simpl. lra.
  - apply students_energy; reflexivity.
Defined.

(** Five students in groups of two: the fifth is in no group. *)
Lemma energy_ignores_leftover_rows_witness :
  energy 5 2 Demo.students (Demo.students ++ [[1; 1; 1; 1; 1; 4]]) 2 Demo.ones
  = energy 5 2 Demo.students (Demo.students ++ [[0; 2; 0; 2; 0; 4]]) 2 Demo.ones.
Proof.
  apply (energy_ignores_leftover_rows 5 2 Demo.students); [easy | easy | reflexivity |].
  reflexivity.
Defined.

(** *** The lists that [main] collects *)

Section Main_facts.

Variable NSTUDENTS GSIZE TRIALS REPETITIONS : nat.
Context {G : Type}.
Variable np_random_seed : Z -> G.
Variable randint : nat -> G -> (nat * nat) * G.
Variable rand : G -> R * G.
Variable permutation : matrix -> G -> matrix * G.
Variable sha512_words : string -> list Z.
Variable rated : matrix.
Variable np_argsort : list R -> list nat.

Local Abbreviation energy := (energy NSTUDENTS GSIZE rated).
Local Abbreviation energy_value := (energy_value NSTUDENTS GSIZE).
Local Abbreviation optimize := (optimize NSTUDENTS randint rand).
Local Abbreviation trial :=
  (trial NSTUDENTS GSIZE REPETITIONS np_random_seed randint rand permutation rated).
Local Abbreviation trials :=
  (trials NSTUDENTS GSIZE REPETITIONS np_random_seed randint rand permutation rated).
Local Abbreviation main :=
  (main NSTUDENTS GSIZE TRIALS REPETITIONS np_random_seed randint rand permutation
     sha512_words rated).

(** [np.random.permutation] returns the rows in another order. *)
Hypothesis permutation_permutes : forall m g, (permutation m g).1 ≡ₚ m.

Lemma trial_result fuel rs seed w (g : G) E0 E data w' g' :
  np_sum w <> 0 ->
  trial fuel rs seed w g = Ok (E0, E, data, w', g') ->
  E <= E0 /\ data ≡ₚ rated /\ w' = normalized w.
Proof.
  intros H. unfold CreateGroups.trial.
  pose proof (permutation_permutes rated
                (np_random_seed (trial_seed rs seed))) as Hp0.
  destruct (permutation rated _) as [data0 g1]. simpl in Hp0.
  destruct (energy data0 GSIZE w) as [[e0 w1]|] eqn:He0; [|discriminate].
  simpl. apply energy_inv in He0 as [-> ->].
  destruct (optimize fuel data0 GSIZE REPETITIONS energy (normalized w) 0 g1)
    as [[[d w2] g2]|] eqn:Hopt; [|discriminate].
  simpl.
  pose proof (optimize_keeps_rows _ _ _ _ _ _ _ _ _ _ _ _ _ _ Hopt) as Hp.
  apply optimize_energy_le in Hopt as [-> Hle]; [|now apply normalized_idem].
  destruct (energy d GSIZE (normalized w)) as [[e w3]|] eqn:He; [|discriminate].
  simpl. apply energy_inv in He as [-> ->].
  intros [= <- <- <- <- _].
  rewrite !(energy_value_normalized _ _ _ GSIZE w H) in Hle.
  rewrite (energy_value_normalized _ _ _ GSIZE w H).
  split; [exact Hle|]. split; [now rewrite <- Hp | now apply normalized_idem].
Qed.

Lemma trials_result fuel rs (seeds : list Z) :
  forall acc w (g : G) t w' g',
  np_sum w <> 0 ->
  trials fuel rs seeds acc w g = Ok (t, w', g') ->
  exists E0s Es ds,
    initial_E_seeds t = (initial_E_seeds acc ++ E0s)%list
    /\ E_seeds t = (E_seeds acc ++ Es)%list
    /\ data_seeds t = (data_seeds acc ++ ds)%list
    /\ length ds = length seeds
    /\ length Es = length seeds
    /\ Forall2 Rle Es E0s
    /\ Forall (fun data => data ≡ₚ rated) ds.
Proof.
  induction seeds as [|seed seeds IH]; intros acc w g t w' g' Hsum Hrun;
    simpl in Hrun.
  - injection Hrun as <- _ _. exists [], [], [].
    rewrite !app_nil_r. repeat split; constructor.
  - destruct (trial fuel rs seed w g) as [[[[[E0 E] data] w1] g1]|] eqn:Ht;
      [|discriminate].
    simpl in Hrun. apply trial_result in Ht as (Hle & Hp & ->); [|exact Hsum].
    apply IH in Hrun
      as (E0s & Es & ds & H1 & H2 & H3 & Hlen & Hlen' & Hall & Hperm).
    + simpl in H1, H2, H3. rewrite <- app_assoc in H1, H2, H3.
      exists (E0 :: E0s), (E :: Es), (data :: ds).
      split; [exact H1|]. split; [exact H2|]. split; [exact H3|].
      split; [simpl; now rewrite Hlen|]. split; [simpl; now rewrite Hlen'|].
      split; now constructor.
    + rewrite (np_sum_normalized w Hsum). lra.
Qed.

(** X20. When [main] returns, it has collected one initial energy, one
    final energy and one array for each trial; the final energy of a
    trial is not above its initial energy, every array holds the rows of
    [rated] in some order, and so does the distribution that it prints as
    the optimal one. *)
Theorem main_collects fuel seed_text (g : G) t w' g' :
  main fuel seed_text g = Ok (t, w', g') ->
  length (initial_E_seeds t) = TRIALS
  /\ length (E_seeds t) = TRIALS
  /\ length (data_seeds t) = TRIALS
  /\ Forall2 Rle (E_seeds t) (initial_E_seeds t)
  /\ Forall (fun data => data ≡ₚ rated) (data_seeds t)
  /\ (forall data, optimal np_argsort t = Ok data -> data ≡ₚ rated).
Proof.
  unfold CreateGroups.main. intros Hrun.
  apply trials_result in Hrun
    as (E0s & Es & ds & H1 & H2 & H3 & Hlen & Hlen' & Hall & Hperm);
    [|exact np_sum_ones].
  simpl in H1, H2, H3. rewrite length_map, length_seq in Hlen, Hlen'.
  rewrite H1, H2, H3.
  pose proof (Forall2_length _ _ _ Hall) as Hl.
  split; [lia|]. split; [exact Hlen'|]. split; [exact Hlen|].
  split; [exact Hall|]. split; [exact Hperm|].
  unfold optimal. rewrite H3. intros data.
  destruct (np_argsort _) as [|pos0 rest]; [discriminate|].
  destruct (ds !! pos0) as [d|] eqn:Hd; [|discriminate].
  intros [= <-]. rewrite Forall_forall in Hperm. apply Hperm.
  eapply list_elem_of_lookup_2. exact Hd.
Qed.

End Main_facts.

Lemma main_collects_witness :
  exists t w' g',
    main 4 2 2 3 Demo.seed_unit Demo.draw_0_2 Demo.draw_zero Demo.keep_order
      Demo.no_words Demo.students 1 "2016" tt = Ok (t, w', g')
    /\ length (initial_E_seeds t) = 2%nat
    /\ length (E_seeds t) = 2%nat
    /\ length (data_seeds t) = 2%nat
    /\ Forall2 Rle (E_seeds t) (initial_E_seeds t)
    /\ Forall (fun data => data ≡ₚ Demo.students) (data_seeds t).
Proof.
  destruct main_returns_on_students as [[[t w'] g'] Hrun].
  exists t, w', g'. split; [exact Hrun|].
  destruct (main_collects 4 2 2 3 Demo.seed_unit Demo.draw_0_2 Demo.draw_zero
              Demo.keep_order Demo.no_words Demo.students (fun _ => [0%nat])
              (fun m g => reflexivity m) 1 "2016" tt t w' g' Hrun)
    as (H1 & H2 & H3 & H4 & H5 & _).
  repeat split; assumption.
Defined.

End CreateGroupsMoreFacts.
